(** * Verification of the subprocess-execution helpers of balena-cli

    Shallow embedding of the helper functions of the utilities module
    ([retry], [getManualSortCompareFunction], [isWindowsComExeShell],
    [shellEscape], [windowsCmdExeEscapeArg], [which], [whichSpawn] and
    [getProxyConfig]) together with the properties the specification
    states about them. *)

From Stdlib Require Import ZArith List Bool Lia Ascii String Permutation.
From Stdlib Require Import Numbers.DecimalString.
Import ListNotations.

Local Open Scope Z_scope.

(** ** JavaScript strings

    A JavaScript string is a sequence of UTF-16 code units.  A code unit is
    kept as a number; [str] turns a literal into its code units. *)
Module JS.

Definition char := N.
Definition jsstring := list char.

Definition chr (a : ascii) : char := N_of_ascii a.

Fixpoint str (s : string) : jsstring :=
  match s with
  | EmptyString => []
  | String a r => chr a :: str r
  end.

Definition char_eqb (a b : char) : bool := N.eqb a b.

Fixpoint string_eqb (s t : jsstring) : bool :=
  match s, t with
  | [], [] => true
  | a :: s', b :: t' => char_eqb a b && string_eqb s' t'
  | _, _ => false
  end.

(** [s.length] *)
Definition length (s : jsstring) : Z := Z.of_nat (List.length s).

(** [s.startsWith(p)] *)
Fixpoint startsWith (s p : jsstring) {struct p} : bool :=
  match p, s with
  | [], _ => true
  | _ :: _, [] => false
  | b :: p', a :: s' => char_eqb a b && startsWith s' p'
  end.

(** [s.endsWith(p)] *)
Definition endsWith (s p : jsstring) : bool :=
  startsWith (rev s) (rev p).

(** Index clamping of [slice]: a negative index counts from the end. *)
Definition slice_index (len i : Z) : Z :=
  if i <? 0 then Z.max (len + i) 0 else Z.min i len.

(** [s.slice(from, to)] *)
Definition slice (s : jsstring) (from to : Z) : jsstring :=
  let len := length s in
  let k := slice_index len from in
  let final := slice_index len to in
  firstn (Z.to_nat (Z.max (final - k) 0)) (skipn (Z.to_nat k) s).

(** [s.substring(from, to)]; indices are clamped to [0, length] and swapped
    when [from > to]. *)
Definition substring (s : jsstring) (from to : Z) : jsstring :=
  let len := length s in
  let a := Z.min (Z.max from 0) len in
  let b := Z.min (Z.max to 0) len in
  let lo := Z.min a b in
  let hi := Z.max a b in
  firstn (Z.to_nat (hi - lo)) (skipn (Z.to_nat lo) s).

(** [s.substring(from)] *)
Definition substring_from (s : jsstring) (from : Z) : jsstring :=
  substring s from (length s).

(** [s.lastIndexOf(c)] for a one-character needle, [-1] when absent. *)
Fixpoint lastIndexOf_from (s : jsstring) (c : char) (i : Z) (found : Z) : Z :=
  match s with
  | [] => found
  | a :: s' => lastIndexOf_from s' c (i + 1) (if char_eqb a c then i else found)
  end.

Definition lastIndexOf (s : jsstring) (c : char) : Z :=
  lastIndexOf_from s c 0 (-1).

(** A replacement template of [String.prototype.replace]: literal code
    units and [$&], the matched text. *)
Inductive template_item := Lit (c : char) | Matched.

Definition expand (t : list template_item) (m : jsstring) : jsstring :=
  flat_map (fun it => match it with Lit c => [c] | Matched => m end) t.

Definition in_class (cls : jsstring) (c : char) : bool :=
  existsb (char_eqb c) cls.

(** [s.replace(/[cls]/g, t)]: every code unit of the class is a match of
    length one; matches are replaced from left to right. *)
Fixpoint replace_class (cls : jsstring) (t : list template_item)
    (s : jsstring) : jsstring :=
  match s with
  | [] => []
  | c :: s' =>
      (if in_class cls c then expand t [c] else [c]) ++ replace_class cls t s'
  end.

(** [parts.join(sep)] *)
Fixpoint join (sep : jsstring) (parts : list jsstring) : jsstring :=
  match parts with
  | [] => []
  | [p] => p
  | p :: rest => p ++ sep ++ join sep rest
  end.

(** JavaScript truthiness of a string: the empty string is falsy. *)
Definition truthy (s : jsstring) : bool :=
  match s with [] => false | _ => true end.

(** Truthiness of [string | undefined]. *)
Definition truthy_opt (s : option jsstring) : bool :=
  match s with Some v => truthy v | None => false end.

(** [a || b] on [string | undefined] *)
Definition or_else (a b : option jsstring) : option jsstring :=
  if truthy_opt a then a else b.

(** The relational operator [a < b] on strings: code units are compared
    from the left, a proper prefix is smaller. *)
Fixpoint string_ltb (s t : jsstring) : bool :=
  match s, t with
  | _, [] => false
  | [], _ :: _ => true
  | a :: s', b :: t' =>
      if N.ltb a b then true
      else if N.ltb b a then false
      else string_ltb s' t'
  end.

End JS.

Import JS.

(** ** The cmd.exe argument escaper *)
Module Escape.

Definition quote : char := chr "034"%char.
Definition caret : char := chr "^"%char.

(** The character class of [/[()%!^<>&|]/g]. *)
Definition metachars : jsstring := str "()%!^<>&|".

(** [windowsCmdExeEscapeArg(arg)] *)
Definition windowsCmdExeEscapeArg (arg : jsstring) : jsstring :=
  let arg :=
    if (1 <? length arg) && startsWith arg [quote] && endsWith arg [quote]
    then slice arg 1 (-1)
    else arg in
  let arg := replace_class metachars [Lit caret; Matched] arg in
  [quote] ++ replace_class [quote] [Lit quote; Lit quote] arg ++ [quote].

(** The four steps as the specification words them. *)
Definition is_wrapped (arg : jsstring) : bool :=
  match arg with
  | c :: (_ :: _) as r => char_eqb c quote && char_eqb (last r 0%N) quote
  | _ => false
  end.

Definition strip_outer_pair (arg : jsstring) : jsstring :=
  if is_wrapped arg then removelast (tl arg) else arg.

Definition caret_prefix (s : jsstring) : jsstring :=
  flat_map (fun c => if in_class metachars c then [caret; c] else [c]) s.

Definition duplicate_quotes (s : jsstring) : jsstring :=
  flat_map (fun c => if char_eqb c quote then [quote; quote] else [c]) s.

Definition wrap_in_quotes (s : jsstring) : jsstring :=
  quote :: s ++ [quote].

Definition four_steps (arg : jsstring) : jsstring :=
  wrap_in_quotes (duplicate_quotes (caret_prefix (strip_outer_pair arg))).

End Escape.

(** ** The process environment *)
Module Env.

(** The variables of [process.env] the helpers read ([undefined] when a
    variable is not set) and [process.platform]. *)
Record env := {
  SHELL : option jsstring;
  ComSpec : option jsstring;
  DEBUG : option jsstring;
  HTTPS_PROXY : option jsstring;
  HTTP_PROXY : option jsstring;
  platform : jsstring
}.

End Env.

(** ** Results of calls that may throw or reject *)
Module Outcome.

Inductive outcome (T E : Type) :=
  | Returned (v : T)
  | Threw (e : E).

Arguments Returned {T E} v.
Arguments Threw {T E} e.

Definition is_returned {T E} (r : outcome T E) : bool :=
  match r with Returned _ => true | Threw _ => false end.

(** Optional parameters with a default value. *)
Definition default {A} (d : A) (o : option A) : A :=
  match o with Some v => v | None => d end.

End Outcome.

Import Outcome.

(** ** Shell dialect selection *)
Module Shell.

Import Env Escape.

(** [isWindowsComExeShell()] *)
Definition isWindowsComExeShell (e : env) : bool :=
  match SHELL e with
  | Some _ => false
  | None =>
      match ComSpec e with
      | None => false
      | Some c => endsWith c (str "cmd.exe")
      end
  end.

(** The [isCmdExe] constant of [shellEscape]. *)
Definition isCmdExe (e : env) (detectShell : bool) : bool :=
  if detectShell then isWindowsComExeShell e
  else string_eqb (platform e) (str "win32").

(** [shellEscape(args, detectShell = false)]; [shellEscapeFunc] is the
    function exported by the [shell-escape] package. *)
Definition shellEscape (shellEscapeFunc : list jsstring -> jsstring)
    (e : env) (args : list jsstring) (detectShell : option bool)
    : list jsstring :=
  if isCmdExe e (default false detectShell)
  then map (fun v => windowsCmdExeEscapeArg v) args
  else map (fun v => shellEscapeFunc [v]) args.

End Shell.

(** ** Parsing a cmd.exe token *)
Module CmdExe.

Import Escape.

(** Modelled from the spec: the reader of a quoted cmd.exe token, which is
    not part of the helpers.  The specification names its two rules: a caret
    makes the next character literal, and a doubled double quote stands for
    one double quote; the token itself sits between one pair of double
    quotes.  A dangling caret or a lone inner quote is not a token. *)
Fixpoint unescape (s : jsstring) : option jsstring :=
  match s with
  | [] => Some []
  | c :: r =>
      if char_eqb c caret then
        match r with
        | [] => None
        | d :: r' => option_map (cons d) (unescape r')
        end
      else if char_eqb c quote then
        match r with
        | [] => None
        | d :: r' =>
            if char_eqb d quote then option_map (cons quote) (unescape r')
            else None
        end
      else option_map (cons c) (unescape r)
  end.

Definition parse (token : jsstring) : option jsstring :=
  match token with
  | c :: (_ :: _) as r =>
      if char_eqb c quote && char_eqb (last r 0%N) quote
      then unescape (removelast r)
      else None
  | _ => None
  end.

End CmdExe.

(** ** Retrying an operation *)
Module Retry.

(** The numbers [retry] computes with.  The delay and the multiplier are
    JavaScript numbers, and [**] and [*] are the operations of the language,
    which round: they are taken as they are.  [literal z] is the number
    whose value is the integer [z], such as the defaults [1000] and [2] and
    the loop counter. *)
Record arithmetic := {
  number : Type;
  literal : Z -> number;
  pow : number -> number -> number;
  mul : number -> number -> number
}.

(** The integers a double holds exactly. *)
Definition safe (z : Z) : Prop := - 2 ^ 53 <= z <= 2 ^ 53.

(** An arithmetic is exact on integers when a power and a product of
    integers is the integer power and product, as long as operands and
    result are integers a double holds exactly. *)
Definition exact_on_integers (A : arithmetic) : Prop :=
  (forall b i, safe b -> 0 <= i -> safe i -> safe (b ^ i) ->
     pow A (literal A b) (literal A i) = literal A (b ^ i))
  /\ (forall x y, safe x -> safe y -> safe (x * y) ->
        mul A (literal A x) (literal A y) = literal A (x * y)).

(** The arithmetic of the integers themselves. *)
Definition integers : arithmetic :=
  {| number := Z; literal := fun z => z; pow := Z.pow; mul := Z.mul |}.

Section WithOperation.

Variable A : arithmetic.

(** The operation returns [T] or fails with [E]; [S] is whatever state of
    the world its successive calls read and change. *)
Context {T E S : Type}.

(** What [retry] does, in order: a call of [func] with how it settled, a
    log line (label, delay, attempt number, total, error), a wait. *)
Inductive event :=
  | Called (r : outcome T E)
  | Logged (label : jsstring) (delayMS : number A) (attempt : Z) (times : Z)
      (err : E)
  | Delayed (ms : number A).

Variable func : S -> outcome T E * S.
Variable times : Z.
Variable label : jsstring.
Variable startingDelayMs : number A.
Variable backoffScaler : number A.

(** The call after the loop: [return await func()]. *)
Definition final_call (s : S) : list event * outcome T E * S :=
  let (r, s1) := func s in ([Called r], r, s1).

(** The [for] loop with [remaining] iterations left, [count] being the
    loop counter: [remaining] is [times - 1 - count] while that is
    positive, and [0] once the guard [count < times - 1] fails. *)
Fixpoint retry_loop (remaining : nat) (count : Z) (s : S)
    : list event * outcome T E * S :=
  match remaining with
  | O => final_call s
  | Datatypes.S k =>
      let (r, s1) := func s in
      match r with
      | Returned v => ([Called r], Returned v, s1)
      | Threw err =>
          let delayMS :=
            mul A (pow A backoffScaler (literal A count)) startingDelayMs in
          let '(tr, res, s2) := retry_loop k (count + 1) s1 in
          (Called r :: Logged label delayMS (count + 1) times err
             :: Delayed delayMS :: tr, res, s2)
      end
  end.

Definition retry_with (s : S) : list event * outcome T E * S :=
  retry_loop (Z.to_nat (times - 1)) 0 s.

(** How the first [n] successive calls of [func] settle. *)
Fixpoint run_calls (n : nat) (s : S) : list (outcome T E) :=
  match n with
  | O => []
  | Datatypes.S k => let (r, s1) := func s in r :: run_calls k s1
  end.

End WithOperation.

Arguments event : clear implicits.
Arguments Called {A T E} r.
Arguments Logged {A T E} label delayMS attempt times err.
Arguments Delayed {A T E} ms.

(** [retry(func, times, label, startingDelayMs = 1000, backoffScaler = 2)] *)
Definition retry (A : arithmetic) {T E S} (func : S -> outcome T E * S)
    (times : Z) (label : jsstring)
    (startingDelayMs backoffScaler : option (number A)) (s : S)
    : list (event A T E) * outcome T E * S :=
  retry_with A func times label (default (literal A 1000) startingDelayMs)
    (default (literal A 2) backoffScaler) s.

(** The calls, the waits and the log lines of a trace. *)
Definition calls {A T E} (tr : list (event A T E)) : list (outcome T E) :=
  flat_map (fun ev => match ev with Called r => [r] | _ => [] end) tr.

Definition delays {A T E} (tr : list (event A T E)) : list (number A) :=
  flat_map (fun ev => match ev with Delayed ms => [ms] | _ => [] end) tr.

Definition logs {A T E} (tr : list (event A T E)) : list (event A T E) :=
  filter (fun ev => match ev with Logged _ _ _ _ _ => true | _ => false end) tr.

(** The events of one failed attempt [i] that is retried. *)
Definition failed_round (A : arithmetic) {T E} (times : Z) (label : jsstring)
    (startingDelayMs backoffScaler : number A) (i : nat) (err : E)
    : list (event A T E) :=
  let d :=
    mul A (pow A backoffScaler (literal A (Z.of_nat i))) startingDelayMs in
  [Called (Threw err); Logged label d (Z.of_nat i + 1) times err; Delayed d].

Fixpoint failed_rounds (A : arithmetic) {T E} (times : Z) (label : jsstring)
    (startingDelayMs backoffScaler : number A) (i : nat) (errs : list E)
    : list (event A T E) :=
  match errs with
  | [] => []
  | err :: rest =>
      failed_round A times label startingDelayMs backoffScaler i err
      ++ failed_rounds A times label startingDelayMs backoffScaler
           (Datatypes.S i) rest
  end.

End Retry.

(** ** Locating and spawning programs *)
Module Spawn.

Import Env.

(** An error raised by the [which] package; [code] is its [code] field. *)
Record lookup_error := {
  code : option jsstring;
  text : jsstring
}.

(** The errors the helpers raise or let through. *)
Inductive error :=
  | ExpectedError (msg : jsstring)
  | Error (msg : jsstring)
  | LookupError (err : lookup_error).

(** [err.code === 'ENOENT'] *)
Definition is_ENOENT (err : lookup_error) : bool :=
  match code err with
  | Some c => string_eqb c (str "ENOENT")
  | None => false
  end.

(** [which(program, rejectOnMissing = true)]; [whichMod] is the lookup of
    the [which] package, which returns a path or fails. *)
Definition which (whichMod : jsstring -> outcome jsstring lookup_error)
    (program : jsstring) (rejectOnMissing : option bool)
    : outcome jsstring error :=
  match whichMod program with
  | Returned programPath => Returned programPath
  | Threw err =>
      if is_ENOENT err then
        if default true rejectOnMissing then
          Threw (ExpectedError
                   (str "'" ++ program ++ str "' program not found. Is it installed?"))
        else Returned []
      else Threw (LookupError err)
  end.

(** A value that may be [undefined] or [null]. *)
Inductive nullable (A : Type) :=
  | Undefined
  | Null
  | Val (a : A).

Arguments Undefined {A}.
Arguments Null {A}.
Arguments Val {A} a.

(** How the spawned child ended: an [error] event (or a synchronous failure
    of [spawn]) carrying the text of the error, or a [close] event with the
    exit code and the signal, each of which may be [null]. *)
Inductive spawn_end :=
  | ErrorEvent (errText : jsstring)
  | CloseEvent (code : nullable Z) (signal : nullable jsstring).

(** Decimal text of an integer. *)
Definition number_to_string (n : Z) : jsstring :=
  str (NilZero.string_of_int (Z.to_int n)).

(** Template-literal conversion of [exitCode] and [exitSignal]. *)
Definition show_nullable {A} (show : A -> jsstring) (v : nullable A) : jsstring :=
  match v with
  | Undefined => str "undefined"
  | Null => str "null"
  | Val a => show a
  end.

(** Truthiness of [exitCode] and of [exitSignal]. *)
Definition code_truthy (c : nullable Z) : bool :=
  match c with Val n => negb (n =? 0) | _ => false end.

Definition signal_truthy (s : nullable jsstring) : bool :=
  match s with Val v => truthy v | _ => false end.

(** The text of the error [whichSpawn] raises. *)
Definition failure_message (programName program : jsstring)
    (args : list jsstring) (exitCode : nullable Z)
    (exitSignal : nullable jsstring) (error : option jsstring) : jsstring :=
  let msg :=
    [ programName ++ str " failed with exit code="
        ++ show_nullable number_to_string exitCode
        ++ str " signal=" ++ show_nullable (fun s => s) exitSignal ++ str ":";
      str "[" ++ program ++ str ", " ++ join (str ", ") args ++ str "]" ]
    ++ match error with Some e => [e] | None => [] end in
  join (str (String "010"%char EmptyString)) msg.

(** [whichSpawn(programName, args, options, returnExitCodeOrSignal = false)].
    [spawn] tells how the child started from the resolved path ends.  The
    result is the lines written to the error stream and the outcome. *)
Definition whichSpawn {Options : Type}
    (whichMod : jsstring -> outcome jsstring lookup_error)
    (spawn : jsstring -> list jsstring -> Options -> spawn_end)
    (e : env) (programName : jsstring) (args : list jsstring)
    (options : Options) (returnExitCodeOrSignal : option bool)
    : list jsstring * outcome (nullable Z * nullable jsstring) error :=
  match which whichMod programName None with
  | Threw err => ([], Threw err)
  | Returned program =>
      let debug :=
        if truthy_opt (DEBUG e)
        then [str "[debug] [" ++ program ++ str ", "
                ++ join (str ", ") args ++ str "]"]
        else [] in
      let '(error, exitCode, exitSignal) :=
        match spawn program args options with
        | ErrorEvent err => (Some err, Undefined, Undefined)
        | CloseEvent c s => (None, c, s)
        end in
      if match error with Some _ => true | None => false end
         || (negb (default false returnExitCodeOrSignal)
             && (code_truthy exitCode || signal_truthy exitSignal))
      then (debug, Threw (Error (failure_message programName program args
                                   exitCode exitSignal error)))
      else (debug, Returned (exitCode, exitSignal))
  end.

(** [sub] occurs in [s]. *)
Definition occurs_in (sub s : jsstring) : Prop :=
  exists before after, s = before ++ sub ++ after.

End Spawn.

(** ** Proxy configuration *)
Module Proxy.

Import Env.

(** [global.PROXY_CONFIG] as global-tunnel-ng fills it in.  The port is a
    number or a string, of which only the text the template literal
    [`${tunnelNgConfig.port}`] gives is read: [tunnel_port] is that text. *)
Record tunnel_config := {
  tunnel_host : jsstring;
  tunnel_port : jsstring;
  tunnel_proxyAuth : option jsstring
}.

Record ProxyConfig := {
  host : jsstring;
  port : jsstring;
  username : option jsstring;
  password : option jsstring;
  proxyAuth : option jsstring
}.

(** The fields of a parsed [URL] that are read. *)
Record URL := {
  url_hostname : jsstring;
  url_port : jsstring;
  url_username : jsstring;
  url_password : jsstring
}.

Definition colon : char := chr ":"%char.

(** The [username] and [password] taken from [proxyAuth]. *)
Definition split_auth (proxyAuth : option jsstring)
    : option jsstring * option jsstring :=
  if truthy_opt proxyAuth then
    let pa := default [] proxyAuth in
    let i := lastIndexOf pa colon in
    if 0 <? i
    then (Some (substring pa 0 i), Some (substring_from pa (i + 1)))
    else (None, None)
  else (None, None).

(** [getProxyConfig()].  [PROXY_CONFIG] is the global object when it is set
    to one, [newURL] the [URL] constructor, which throws on a string that is
    not a URL.  The result is a configuration, [undefined] ([None]), or an
    error. *)
Definition getProxyConfig {Exn : Type} (PROXY_CONFIG : option tunnel_config)
    (newURL : jsstring -> outcome URL Exn) (e : env)
    : outcome (option ProxyConfig) Exn :=
  match PROXY_CONFIG with
  | Some tunnelNgConfig =>
      let (username, password) := split_auth (tunnel_proxyAuth tunnelNgConfig) in
      Returned (Some {|
        host := tunnel_host tunnelNgConfig;
        port := tunnel_port tunnelNgConfig;
        username := username;
        password := password;
        proxyAuth := tunnel_proxyAuth tunnelNgConfig |})
  | None =>
      match or_else (HTTPS_PROXY e) (HTTP_PROXY e) with
      | Some proxyUrl =>
          if truthy proxyUrl then
            match newURL proxyUrl with
            | Threw _e => Returned None
            | Returned url =>
                Returned (Some {|
                  host := url_hostname url;
                  port := url_port url;
                  username := Some (url_username url);
                  password := Some (url_password url);
                  proxyAuth :=
                    if truthy (url_username url) && truthy (url_password url)
                    then Some (url_username url ++ [colon] ++ url_password url)
                    else None |})
            end
          else Returned None
      | None => Returned None
      end
  end.

End Proxy.

(** ** Sorting after a reference list *)
Module ManualSort.

(** [array.findIndex(pred)]: the first index whose element satisfies the
    predicate, called with element, index and array; [-1] when none does. *)
Fixpoint findIndex_from {U} (pred : U -> Z -> list U -> bool)
    (array rest : list U) (i : Z) : Z :=
  match rest with
  | [] => -1
  | x :: rest' =>
      if pred x i array then i else findIndex_from pred array rest' (i + 1)
  end.

Definition findIndex {U} (pred : U -> Z -> list U -> bool) (array : list U) : Z :=
  findIndex_from pred array array 0.

(** [getManualSortCompareFunction(manuallySortedArray, equalityFunc)];
    [lt] and [gt] are the operators [<] and [>] at the type [T]. *)
Definition getManualSortCompareFunction {T U} (lt gt : T -> T -> bool)
    (manuallySortedArray : list U)
    (equalityFunc : T -> U -> Z -> list U -> bool) : T -> T -> Z :=
  fun a b =>
    let indexA :=
      findIndex (fun x index array => equalityFunc a x index array)
        manuallySortedArray in
    let indexB :=
      findIndex (fun x index array => equalityFunc b x index array)
        manuallySortedArray in
    if (0 <=? indexA) && (0 <=? indexB) then indexA - indexB
    else if (indexA <? 0) && (indexB <? 0) then
      if lt a b then -1 else if gt a b then 1 else 0
    else if indexA <? 0 then 1 else -1.

(** An element is found when [findIndex] gives an index. *)
Definition index_of {T U} (manuallySortedArray : list U)
    (equalityFunc : T -> U -> Z -> list U -> bool) (a : T) : Z :=
  findIndex (fun x index array => equalityFunc a x index array)
    manuallySortedArray.

(** [array.sort(compare)] as a stable insertion sort: an element goes
    before the first one that compares greater. *)
Fixpoint insert {T} (compare : T -> T -> Z) (a : T) (l : list T) : list T :=
  match l with
  | [] => [a]
  | b :: l' => if compare a b <? 0 then a :: l else b :: insert compare a l'
  end.

Definition sort {T} (compare : T -> T -> Z) (l : list T) : list T :=
  fold_left (fun acc a => insert compare a acc) l [].

(** A list is in the order of [compare] when no element compares greater
    than a later one. *)
Fixpoint ordered {T} (compare : T -> T -> Z) (l : list T) : Prop :=
  match l with
  | [] => True
  | a :: l' => Forall (fun b => compare a b <= 0) l' /\ ordered compare l'
  end.

(** The comparator of the specification's example: strings compared with
    [<] and [>], matched against the reference list by equality. *)
Definition string_compare (reference : list jsstring) : jsstring -> jsstring -> Z :=
  getManualSortCompareFunction string_ltb (fun a b => string_ltb b a)
    reference (fun a x _ _ => string_eqb a x).

End ManualSort.

(** ** Concrete operations and environments for the examples *)
Module Examples.

Import Env.

(** An operation that fails on its first [k] calls, with the call number as
    the error, and returns [42] afterwards; the state counts the calls. *)
Definition fails_first (k : nat) (n : nat) : outcome Z nat * nat :=
  (if (n <? k)%nat then Threw n else Returned 42, Datatypes.S n).

(** A stand-in for the [shell-escape] package: each argument is put between
    single quotes, arguments are joined by a space. *)
Definition single_quoted (args : list jsstring) : jsstring :=
  join (str " ") (map (fun a => str "'" ++ a ++ str "'") args).

(** An environment in which no variable is set. *)
Definition bare_env (platform : jsstring) : env :=
  {| SHELL := None; ComSpec := None; DEBUG := None;
     HTTPS_PROXY := None; HTTP_PROXY := None; platform := platform |}.

(** A stand-in for the [URL] constructor that knows two proxy addresses and
    throws on every other string. *)
Definition two_urls (s : jsstring) : outcome Proxy.URL unit :=
  if string_eqb s (str "http://plain:8080") then
    Returned {| Proxy.url_hostname := str "plain"; Proxy.url_port := str "8080";
                Proxy.url_username := []; Proxy.url_password := [] |}
  else if string_eqb s (str "https://u:p@secure:8443") then
    Returned {| Proxy.url_hostname := str "secure"; Proxy.url_port := str "8443";
                Proxy.url_username := str "u"; Proxy.url_password := str "p" |}
  else Threw tt.

(** A lookup of the [which] package that finds [ssh] only, fails with
    [ENOENT] on other names and with [EACCES] on the empty name. *)
Definition finds_ssh (program : jsstring) : outcome jsstring Spawn.lookup_error :=
  if string_eqb program (str "ssh") then Returned (str "/usr/bin/ssh")
  else if string_eqb program [] then
    Threw {| Spawn.code := Some (str "EACCES"); Spawn.text := str "denied" |}
  else
    Threw {| Spawn.code := Some (str "ENOENT");
             Spawn.text := str "not found: " ++ program |}.

(** A stand-in for [spawn], told by its one argument how the child ends. *)
Definition child (program : jsstring) (args : list jsstring) (_ : unit)
    : Spawn.spawn_end :=
  match args with
  | [a] =>
      if string_eqb a (str "ok") then Spawn.CloseEvent (Spawn.Val 0) Spawn.Null
      else if string_eqb a (str "kill")
      then Spawn.CloseEvent Spawn.Null (Spawn.Val (str "SIGTERM"))
      else if string_eqb a (str "fail")
      then Spawn.CloseEvent (Spawn.Val 2) Spawn.Null
      else Spawn.ErrorEvent (str "Error: spawn EACCES")
  | _ => Spawn.ErrorEvent (str "Error: spawn EACCES")
  end.

(** An environment with the two proxy variables only. *)
Definition proxy_env (https http : option jsstring) : env :=
  {| SHELL := None; ComSpec := None; DEBUG := None;
     HTTPS_PROXY := https; HTTP_PROXY := http; platform := str "linux" |}.

(** A tunnel configuration with the given [proxyAuth]. *)
Definition tunnel (auth : option jsstring) : Proxy.tunnel_config :=
  {| Proxy.tunnel_host := str "proxy"; Proxy.tunnel_port := str "3128";
     Proxy.tunnel_proxyAuth := auth |}.

End Examples.

Import Examples.

(** ** Reading the quotes of a token *)
Module Token.

Import Escape.

(** Every double quote of [s] is doubled: read from the left, a double
    quote is followed at once by a second one, and the two make a pair. *)
Fixpoint quotes_doubled (s : jsstring) : bool :=
  match s with
  | [] => true
  | c :: r =>
      if char_eqb c quote then
        match r with
        | d :: r' => char_eqb d quote && quotes_doubled r'
        | [] => false
        end
      else quotes_doubled r
  end.

(** The text between the first and the last character of a token. *)
Definition inside (token : jsstring) : jsstring := removelast (tl token).

End Token.

(** ** More string and Lodash functions the code calls *)
Module Lodash.

(** [s.split(sep)] for a one-character separator. *)
Fixpoint split (s : jsstring) (sep : char) : list jsstring :=
  match s with
  | [] => [[]]
  | c :: rest =>
      if char_eqb c sep then [] :: split rest sep
      else match split rest sep with
           | piece :: pieces => (c :: piece) :: pieces
           | [] => [[c]]
           end
  end.

(** A plain object whose prototype is [Object.prototype], as the list of
    its own properties; the values are primitives.  What the object inherits
    from its prototype is not in the list. *)
Definition object (V : Type) := list (jsstring * V).

Definition proto : jsstring := str "__proto__".

(** The value of the own property [key], when the object has one:
    [Object.prototype.hasOwnProperty.call(obj, key)], then [obj[key]]. *)
Fixpoint own {V} (obj : object V) (key : jsstring) : option V :=
  match obj with
  | [] => None
  | (k, v) :: rest => if string_eqb k key then Some v else own rest key
  end.

(** An own property is written: one that exists keeps its place, a new one
    goes last. *)
Fixpoint put {V} (obj : object V) (key : jsstring) (value : V) : object V :=
  match obj with
  | [] => [(key, value)]
  | (k, v) :: rest =>
      if string_eqb k key then (k, value) :: rest
      else (k, v) :: put rest key value
  end.

(** [obj[key] = value] for a primitive [value]: the key [__proto__] is the
    setter of [Object.prototype], which ignores a primitive; every other key
    writes an own property. *)
Definition assign {V} (obj : object V) (key : jsstring) (value : V) : object V :=
  if string_eqb key proto then obj else put obj key value.

(** The keys of an object are distinct and none is [__proto__]. *)
Definition proper_keys {V} (obj : object V) : Prop :=
  NoDup (map fst obj) /\ ~ In proto (map fst obj).

(** [_.fromPairs(pairs)] *)
Definition fromPairs {V} (pairs : list (jsstring * V)) : object V :=
  fold_left (fun result pair => assign result (fst pair) (snd pair)) pairs [].

(** The padding of [_.padStart]: [chars] repeated and cut to [n] code
    units; [rest] is what is left of the current repetition. *)
Fixpoint createPadding (n : nat) (chars rest : jsstring) : jsstring :=
  match n with
  | O => []
  | Datatypes.S k =>
      match rest with
      | c :: rest' => c :: createPadding k chars rest'
      | [] =>
          match chars with
          | c :: rest' => c :: createPadding k chars rest'
          | [] => []
          end
      end
  end.

(** [_.padStart(s, len, chars)] *)
Definition padStart (s : jsstring) (len : Z) (chars : jsstring) : jsstring :=
  let strLength := length s in
  if negb (len =? 0) && (strLength <? len)
  then createPadding (Z.to_nat (len - strLength)) chars chars ++ s
  else s.

(** [_.sumBy(array, iteratee)]; an [undefined] array sums to [0]. *)
Definition sumBy {A} (array : option (list A)) (iteratee : A -> Z) : Z :=
  match array with
  | Some l => fold_left (fun result x => result + iteratee x) l 0
  | None => 0
  end.

End Lodash.

(** ** The other helpers of the utilities module *)
Module Helpers.

Import Spawn.

(** *** [getGroupDefaults] *)

Inductive scalar := Str (s : jsstring) | Num (n : Z).

(** An option of a group: its [name] and [default] fields. *)
Record question := {
  question_name : jsstring;
  question_default : scalar
}.

(** [getGroupDefaults(group)], [options] being [group.options]. *)
Definition getGroupDefaults (options : list question) : Lodash.object scalar :=
  Lodash.fromPairs
    (map (fun question => (question_name question, question_default question))
       options).

(** *** [stateToString] *)

(** [state.operation]: the [command] and the fields the commands read
    ([from.path], [to.path], [file.path], [copy], [replace], [script]). *)
Record operation := {
  command : jsstring;
  from_path : jsstring;
  to_path : jsstring;
  file_path : jsstring;
  copy_field : jsstring;
  replace_field : jsstring;
  script : jsstring
}.

Record OperationState := {
  percentage : Z;
  state_operation : operation
}.

(** The padded percentage of [stateToString]. *)
Definition padded_percentage (state : OperationState) : jsstring :=
  Lodash.padStart (number_to_string (percentage state)) 3 (str "0").

(** [stateToString(state)]; [blue] and [cyan] are the colouring functions
    of chalk. *)
Definition stateToString (blue cyan : jsstring -> jsstring)
    (state : OperationState) : outcome jsstring error :=
  let percentage := padded_percentage state in
  let op := state_operation state in
  let result := blue (percentage ++ str "%") ++ str " " ++ cyan (command op) in
  if string_eqb (command op) (str "copy") then
    Returned (result ++ str " " ++ from_path op ++ str " -> " ++ to_path op)
  else if string_eqb (command op) (str "replace") then
    Returned (result ++ str " " ++ file_path op ++ str ", " ++ copy_field op
              ++ str " -> " ++ replace_field op)
  else if string_eqb (command op) (str "run-script") then
    Returned (result ++ str " " ++ script op)
  else Threw (Error (str "Unsupported operation: " ++ command op)).

(** The listener [osProgressHandler] registers for [state] events: the
    lines it writes with [console.log], or the error it throws. *)
Definition on_state (blue cyan : jsstring -> jsstring)
    (state : OperationState) : outcome (list jsstring) error :=
  if string_eqb (command (state_operation state)) (str "burn") then Returned []
  else
    match stateToString blue cyan state with
    | Returned line => Returned [line]
    | Threw err => Threw err
    end.

(** *** [sudo] *)

Definition admin_message : jsstring :=
  str "Admin privileges required: you may be asked for your computer password to continue.".

(** [sudo(command, {stderr, msg, isCLIcmd})]: the lines written with
    [console.log], the arguments [executeWithPrivileges] is called with, and
    its outcome. *)
Definition sudo {Stream Exn : Type}
    (executeWithPrivileges :
       list jsstring -> option Stream -> bool -> outcome unit Exn)
    (platform : jsstring) (command : list jsstring) (stderr : option Stream)
    (msg : option jsstring) (isCLIcmd : option bool)
    : list jsstring * (list jsstring * option Stream * bool) * outcome unit Exn :=
  let printed :=
    if negb (string_eqb platform (str "win32"))
    then [if truthy_opt msg then default [] msg else admin_message]
    else [] in
  let isCLIcmd := match isCLIcmd with None => true | Some b => b end in
  (printed, (command, stderr, isCLIcmd),
   executeWithPrivileges command stderr isCLIcmd).

(** *** [getApplication] and [getAppWithArch] *)

Definition slash : char := chr "/"%char.

(** The call [getApplication] makes to the SDK. *)
Inductive sdk_request :=
  | GetAppByOwner (appName owner : jsstring)
  | Get (nameOrId : jsstring).

(** [getApplication(applicationName)]: [match.length > 1] holds exactly
    when the split has a second piece. *)
Definition getApplication (applicationName : jsstring) : sdk_request :=
  match Lodash.split applicationName slash with
  | owner :: appName :: _ => GetAppByOwner appName owner
  | _ => Get applicationName
  end.

Record DeviceType := {
  slug : jsstring;
  arch : jsstring;
  isDependent : option bool
}.

(** The continuation of [getAppWithArch], once the application and the
    device types have arrived: the application with the [arch] of its
    device type; [device_type] reads [app.device_type]. *)
Definition withArch {App : Type} (device_type : App -> jsstring) (app : App)
    (deviceTypes : list DeviceType) : outcome (App * jsstring) error :=
  match find (fun dt => string_eqb (slug dt) (device_type app)) deviceTypes with
  | Some config => Returned (app, arch config)
  | None => Threw (Error (str "Could not read application information!"))
  end.

End Helpers.

(** ** The [apps] command *)
Module Apps.

Import Spawn.

(** A device of [owns__device]; [is_online] may be [null]. *)
Record device := { is_online : nullable bool }.

(** [application.owns__device?.length ?? 0] *)
Definition device_count (owns__device : option (list device)) : Z :=
  match owns__device with
  | Some l => Z.of_nat (List.length l)
  | None => 0
  end.

(** [_.sumBy(application.owns__device, (d) => d.is_online === true ? 1 : 0)] *)
Definition online_devices (owns__device : option (list device)) : Z :=
  Lodash.sumBy owns__device
    (fun d => match is_online d with Val true => 1 | _ => 0 end).

End Apps.

(** ** The [os initialize] action *)
Module OsInit.

Definition newline : jsstring := [10%N].

Definition INIT_WARNING_MESSAGE : jsstring :=
  str "Note: Initializing the device may ask for administrative permissions"
  ++ newline ++ str "because we need to access the raw devices directly.".

(** What the action does to the outside world, in order. *)
Inductive event :=
  | Info (text : jsstring)
  | Log (text : jsstring)
  | GetImageManifest (image : jsstring)
  | GetManifestBySlug (deviceType : jsstring)
  | RunForm (drive : option jsstring)
  | Confirm (yes : option bool) (message yesMessage : jsstring)
      (exitIfDeclined : bool)
  | Umount (drive : jsstring)
  | ExecuteWithPrivileges (command : list jsstring) (isCLIcmd : bool).

Section Action.

Context {Manifest Answers Exn : Type}.

(** How the outside world answers: the manifest inside the image ([null]
    when it has none), the manifest the SDK has for the device type, the
    form, the confirmation, the two unmounts and the privileged command. *)
Variable imageManifest : outcome (option Manifest) Exn.
Variable manifestBySlug : outcome Manifest Exn.
Variable form : Manifest -> option jsstring -> outcome Answers Exn.
Variable confirm : outcome unit Exn.
Variable umount_before umount_after : outcome unit Exn.
Variable executeWithPrivileges : outcome unit Exn.

(** [answers.drive] and [JSON.stringify(answers)]. *)
Variable drive : Answers -> option jsstring.
Variable stringify : Answers -> jsstring.

Variable platform : jsstring.

(** A step: the events so far and a value or the rejection. *)
Definition step (X : Type) : Type := list event * outcome X Exn.

Definition ret {X} (x : X) : step X := ([], Returned x).

Definition bind {X Y} (m : step X) (k : X -> step Y) : step Y :=
  match m with
  | (tr, Returned x) => let (tr', r) := k x in (tr ++ tr', r)
  | (tr, Threw e) => (tr, Threw e)
  end.

Definition emit {X} (ev : event) (r : outcome X Exn) : step X := ([ev], r).

(** [.tap(handler)]: the handler runs and the value is passed on. *)
Definition tap {X} (m : step X) (handler : X -> step unit) : step X :=
  bind m (fun x => bind (handler x) (fun _ => ret x)).

(** [helpers.getManifest(image, deviceType)] *)
Definition getManifest (image deviceType : jsstring) : step Manifest :=
  bind (emit (GetImageManifest image) imageManifest) (fun manifest =>
    match manifest with
    | Some m => ret m
    | None => emit (GetManifestBySlug deviceType) manifestBySlug
    end).

(** [helpers.sudo(command)] as the action calls it, without options. *)
Definition run_sudo (command : list jsstring) : step unit :=
  let '(printed, (cmd, _, isCLIcmd), result) :=
    Helpers.sudo (Stream := unit) (fun _ _ _ => executeWithPrivileges)
      platform command None None None in
  (map Log printed ++ [ExecuteWithPrivileges cmd isCLIcmd], result).

(** [initialize.action(params, options)] with [params.image],
    [options.type], [options.drive] and [options.yes]. *)
Definition action (image type : jsstring) (option_drive : option jsstring)
    (yes : option bool) : step unit :=
  bind (emit (Info (str "Initializing device" ++ newline ++ newline
                    ++ INIT_WARNING_MESSAGE)) (Returned tt)) (fun _ =>
  bind
    (tap
       (tap
          (bind (getManifest image type) (fun manifest =>
             emit (RunForm option_drive) (form manifest option_drive)))
          (fun answers =>
             match drive answers with
             | None => ret tt
             | Some d =>
                 bind (emit (Confirm yes
                               (str "This will erase " ++ d ++ str ". Are you sure?")
                               (str "Going to erase " ++ d ++ str ".") true)
                         confirm)
                   (fun _ => emit (Umount d) umount_before)
             end))
       (fun answers =>
          run_sudo [str "internal"; str "osinit"; image; type; stringify answers]))
    (fun answers =>
       match drive answers with
       | None => ret tt
       | Some d =>
           bind (emit (Umount d) umount_after) (fun _ =>
             emit (Info (str "You can safely remove " ++ d ++ str " now"))
               (Returned tt))
       end)).

End Action.

(** The drives unmounted and the privileged commands run in a trace. *)
Definition umounts (tr : list event) : list jsstring :=
  flat_map (fun ev => match ev with Umount d => [d] | _ => [] end) tr.

Definition privileged_commands (tr : list event) : list (list jsstring) :=
  flat_map (fun ev => match ev with
                      | ExecuteWithPrivileges c _ => [c]
                      | _ => []
                      end) tr.

Definition confirmations (tr : list event) : nat :=
  List.length (filter (fun ev => match ev with
                                 | Confirm _ _ _ _ => true
                                 | _ => false
                                 end) tr).

End OsInit.

(** ** More concrete operations for the examples *)
Module MoreExamples.


(** Two device types that share a slug, and a third one. *)
Definition device_types : list Helpers.DeviceType :=
  [ {| Helpers.slug := str "raspberrypi3"; Helpers.arch := str "armv7hf";
       Helpers.isDependent := None |};
    {| Helpers.slug := str "intel-nuc"; Helpers.arch := str "amd64";
       Helpers.isDependent := Some false |};
    {| Helpers.slug := str "raspberrypi3"; Helpers.arch := str "aarch64";
       Helpers.isDependent := Some true |} ].

End MoreExamples.

Import MoreExamples.

(** * Properties *)

Import Escape.

(** ** String primitives *)

Lemma char_eqb_eq (a b : char) : char_eqb a b = true <-> a = b.
Proof. unfold char_eqb. apply N.eqb_eq. Qed.

Lemma char_eqb_refl (a : char) : char_eqb a a = true.
Proof. apply char_eqb_eq. reflexivity. Qed.

Lemma string_eqb_eq (s t : jsstring) : string_eqb s t = true <-> s = t.
Proof.
  revert t. induction s as [|a s IH]; intros [|b t]; simpl; split;
    try congruence; try reflexivity.
  - intros H. apply andb_true_iff in H as [Hab Hst].
    apply char_eqb_eq in Hab. apply IH in Hst. congruence.
  - intros H. injection H as -> ->.
    rewrite char_eqb_refl. simpl. apply IH. reflexivity.
Qed.

Lemma rev_head_last (l : jsstring) (d : char) :
  l <> [] -> rev l = last l d :: rev (removelast l).
Proof.
  intros Hl.
  rewrite (app_removelast_last d Hl) at 1.
  rewrite rev_app_distr. reflexivity.
Qed.

Lemma endsWith_one (l : jsstring) (c : char) :
  l <> [] -> endsWith l [c] = char_eqb (last l 0%N) c.
Proof.
  intros Hl. unfold endsWith. rewrite (rev_head_last l 0%N Hl).
  simpl. apply andb_true_r.
Qed.

Lemma slice_inner (c : char) (r : jsstring) :
  r <> [] -> slice (c :: r) 1 (-1) = removelast r.
Proof.
  intros Hr. unfold slice, slice_index, length.
  assert (Hlen : (0 < List.length r)%nat)
    by (destruct r; [congruence | simpl; lia]).
  cbn [List.length].
  replace (1 <? 0) with false by reflexivity.
  replace (-1 <? 0) with true by reflexivity.
  rewrite Z.min_l by lia. rewrite Z.max_l by lia.
  change (Z.to_nat 1) with 1%nat. cbn [skipn].
  rewrite removelast_firstn_len. f_equal. lia.
Qed.

Lemma replace_class_flat_map cls t s :
  replace_class cls t s
  = flat_map (fun c => if in_class cls c then expand t [c] else [c]) s.
Proof.
  induction s as [|c s IH]; simpl; [reflexivity|]. now rewrite IH.
Qed.

(** ** The escaper *)

Lemma is_wrapped_test (arg : jsstring) :
  (1 <? length arg) && startsWith arg [quote] && endsWith arg [quote]
  = is_wrapped arg.
Proof.
  destruct arg as [|c [|d r]]; try reflexivity.
  - rewrite endsWith_one by discriminate.
    replace (1 <? length (c :: d :: r)) with true
      by (symmetry; apply Z.ltb_lt; unfold length; simpl List.length; lia).
    cbn [startsWith is_wrapped andb]. rewrite andb_true_r. reflexivity.
Qed.

Lemma strip_is_slice (arg : jsstring) :
  (if (1 <? length arg) && startsWith arg [quote] && endsWith arg [quote]
   then slice arg 1 (-1) else arg) = strip_outer_pair arg.
Proof.
  rewrite is_wrapped_test. unfold strip_outer_pair.
  destruct (is_wrapped arg) eqn:Hw; [|reflexivity].
  destruct arg as [|c [|d r]]; try discriminate.
  apply slice_inner. discriminate.
Qed.

Lemma caret_replace (s : jsstring) :
  replace_class metachars [Lit caret; Matched] s = caret_prefix s.
Proof.
  rewrite replace_class_flat_map. unfold caret_prefix.
  apply flat_map_ext. intros c. destruct (in_class metachars c); reflexivity.
Qed.

Lemma quote_replace (s : jsstring) :
  replace_class [quote] [Lit quote; Lit quote] s = duplicate_quotes s.
Proof.
  rewrite replace_class_flat_map. unfold duplicate_quotes.
  apply flat_map_ext. intros c. unfold in_class. simpl.
  rewrite orb_false_r. destruct (char_eqb c quote); reflexivity.
Qed.

Lemma escape_as_steps (arg : jsstring) :
  windowsCmdExeEscapeArg arg = four_steps arg.
Proof.
  unfold windowsCmdExeEscapeArg, four_steps, wrap_in_quotes.
  rewrite strip_is_slice, caret_replace, quote_replace. reflexivity.
Qed.

(** C1: for every input string the escaper's output is the result of the
    four steps in order: strip an outer pair of double quotes when the input
    is longer than one character and both starts and ends with a double
    quote; prefix each of the characters ( ) % ! ^ < > & | with a caret;
    duplicate every remaining double quote; wrap the result in one new pair
    of double quotes. *)
Theorem windowsCmdExeEscapeArg_four_steps (arg : jsstring) :
  windowsCmdExeEscapeArg arg
  = wrap_in_quotes (duplicate_quotes (caret_prefix (strip_outer_pair arg)))
  /\ strip_outer_pair arg
     = (if (1 <? length arg) && startsWith arg [quote] && endsWith arg [quote]
        then removelast (tl arg) else arg).
Proof.
  split.
  - apply escape_as_steps.
  - rewrite is_wrapped_test. reflexivity.
Qed.

(** ** Reading the escaped token back *)

Lemma meta_not_quote (c : char) :
  in_class metachars c = true -> char_eqb c quote = false.
Proof.
  intros Hm. destruct (char_eqb c quote) eqn:Hq; [|reflexivity].
  apply char_eqb_eq in Hq. subst c. discriminate Hm.
Qed.

Lemma not_meta_not_caret (c : char) :
  in_class metachars c = false -> char_eqb c caret = false.
Proof.
  intros Hm. destruct (char_eqb c caret) eqn:Hq; [|reflexivity].
  apply char_eqb_eq in Hq. subst c. discriminate Hm.
Qed.

Lemma unescape_escaped (s : jsstring) :
  CmdExe.unescape (duplicate_quotes (caret_prefix s)) = Some s.
Proof.
  induction s as [|c s IH]; [reflexivity|].
  unfold caret_prefix, duplicate_quotes in *. cbn [flat_map].
  destruct (in_class metachars c) eqn:Hm.
  - cbn [flat_map app].
    replace (char_eqb caret quote) with false by reflexivity.
    rewrite (meta_not_quote c Hm). cbn [app CmdExe.unescape].
    rewrite char_eqb_refl, IH. reflexivity.
  - cbn [flat_map app].
    destruct (char_eqb c quote) eqn:Hq.
    + apply char_eqb_eq in Hq. subst c.
      cbn [app CmdExe.unescape].
      replace (char_eqb quote caret) with false by reflexivity.
      rewrite char_eqb_refl, IH. reflexivity.
    + cbn [app CmdExe.unescape].
      rewrite (not_meta_not_caret c Hm), Hq, IH. reflexivity.
Qed.

Lemma parse_wrapped (body : jsstring) :
  CmdExe.parse (wrap_in_quotes body) = CmdExe.unescape body.
Proof.
  unfold wrap_in_quotes, CmdExe.parse.
  assert (Hne : body ++ [quote] <> [])
    by (intros H; apply app_eq_nil in H as [_ H]; discriminate).
  destruct (body ++ [quote]) as [|d r] eqn:Hb; [congruence|].
  rewrite <- Hb, last_last, removelast_last, !char_eqb_refl. reflexivity.
Qed.

(** C2, as the code has it: reading the escaper's output back by the caret
    and doubled-quote rules gives the argument without its outer pair of
    double quotes when it is longer than one character and starts and ends
    with a double quote, and exactly the original argument otherwise. *)
Theorem parse_windowsCmdExeEscapeArg (arg : jsstring) :
  CmdExe.parse (windowsCmdExeEscapeArg arg) = Some (strip_outer_pair arg)
  /\ (is_wrapped arg = false ->
      CmdExe.parse (windowsCmdExeEscapeArg arg) = Some arg).
Proof.
  assert (H : CmdExe.parse (windowsCmdExeEscapeArg arg)
              = Some (strip_outer_pair arg)).
  { rewrite escape_as_steps. unfold four_steps.
    rewrite parse_wrapped. apply unescape_escaped. }
  split; [exact H|].
  intros Hw. rewrite H. unfold strip_outer_pair. rewrite Hw. reflexivity.
Qed.

Lemma parse_windowsCmdExeEscapeArg_witness :
  is_wrapped (str "a&b" ++ [quote] ++ str "c|d") = false
  /\ CmdExe.parse (windowsCmdExeEscapeArg (str "a&b" ++ [quote] ++ str "c|d"))
     = Some (str "a&b" ++ [quote] ++ str "c|d").
Proof.
  split; [reflexivity|].
  apply (parse_windowsCmdExeEscapeArg (str "a&b" ++ [quote] ++ str "c|d")).
  reflexivity.
Defined.

(** C2 fails for an argument that is itself wrapped in double quotes: the
    quoted argument ["a"] and the bare argument [a] are escaped to the same
    token, so no reader of tokens gives both back, and the reader of the
    specification gives [a]. *)
Lemma roundtrip_fails_on_wrapped_argument :
  windowsCmdExeEscapeArg ([quote] ++ str "a" ++ [quote])
  = windowsCmdExeEscapeArg (str "a")
  /\ CmdExe.parse (windowsCmdExeEscapeArg ([quote] ++ str "a" ++ [quote]))
     = Some (str "a")
  /\ CmdExe.parse (windowsCmdExeEscapeArg ([quote] ++ str "a" ++ [quote]))
     <> Some ([quote] ++ str "a" ++ [quote])
  /\ ~ (exists reader : jsstring -> option jsstring,
          forall arg, reader (windowsCmdExeEscapeArg arg) = Some arg).
Proof.
  repeat split; try discriminate.
  intros [reader Hr].
  pose proof (Hr ([quote] ++ str "a" ++ [quote])) as H1.
  pose proof (Hr (str "a")) as H2.
  change (windowsCmdExeEscapeArg ([quote] ++ str "a" ++ [quote]))
    with (windowsCmdExeEscapeArg (str "a")) in H1.
  rewrite H2 in H1. discriminate H1.
Qed.

(** ** Retrying *)
Section RetryFacts.

Import Retry.

Variable A : arithmetic.
Context {T E S : Type}.
Variable func : S -> outcome T E * S.
Variable times : Z.
Variable label : jsstring.
Variable startingDelayMs backoffScaler : number A.

Lemma delays_failed_rounds (i : nat) (errs : list E) :
  delays (failed_rounds A (T := T) times label startingDelayMs backoffScaler
            i errs)
  = map (fun k => mul A (pow A backoffScaler (literal A (Z.of_nat k)))
                    startingDelayMs)
      (seq i (List.length errs)).
Proof.
  revert i. induction errs as [|err errs IH]; intros i; [reflexivity|].
  cbn [failed_rounds List.length seq map]. unfold delays in *.
  rewrite flat_map_app, IH. reflexivity.
Qed.

Lemma calls_failed_rounds (i : nat) (errs : list E) :
  calls (failed_rounds A (T := T) times label startingDelayMs backoffScaler
           i errs)
  = map Threw errs.
Proof.
  revert i. induction errs as [|err errs IH]; intros i; [reflexivity|].
  cbn [failed_rounds map]. unfold calls in *.
  rewrite flat_map_app, IH. reflexivity.
Qed.

(** The shape of a run of the loop that starts at counter [i] with
    [remaining] guarded attempts left. *)
Lemma retry_loop_shape (remaining i : nat) (s : S) :
  exists (errs : list E) (r : outcome T E),
    fst (fst (retry_loop A func times label startingDelayMs backoffScaler
                remaining (Z.of_nat i) s))
    = failed_rounds A times label startingDelayMs backoffScaler i errs
      ++ [Called r]
    /\ snd (fst (retry_loop A func times label startingDelayMs backoffScaler
                   remaining (Z.of_nat i) s)) = r
    /\ run_calls func (Datatypes.S (List.length errs)) s = map Threw errs ++ [r]
    /\ (List.length errs <= remaining)%nat
    /\ (is_returned r = false -> List.length errs = remaining).
Proof.
  revert i s. induction remaining as [|k IH]; intros i s.
  - exists [], (fst (func s)). cbn [retry_loop run_calls]. unfold final_call.
    destruct (func s) as [r s1]. cbn. repeat split; auto.
  - cbn [retry_loop].
    destruct (func s) as [r s1] eqn:Hf. destruct r as [v|err].
    + exists [], (Returned v). cbn [run_calls]. rewrite Hf. cbn.
      repeat split; [lia | discriminate].
    + destruct (IH (Datatypes.S i) s1) as (errs & r & Htr & Hres & Hrun & Hlen & Hall).
      replace (Z.of_nat i + 1) with (Z.of_nat (Datatypes.S i)) by lia.
      destruct (retry_loop A func times label startingDelayMs backoffScaler k
                  (Z.of_nat (Datatypes.S i)) s1) as [[tr res] s2].
      cbn [fst snd] in *.
      exists (err :: errs), r. repeat split.
      * cbn [failed_rounds failed_round app]. rewrite Htr.
        replace (Z.of_nat (Datatypes.S i)) with (Z.of_nat i + 1) by lia.
        reflexivity.
      * exact Hres.
      * change (run_calls func (Datatypes.S (List.length (err :: errs))) s)
          with (let (r0, s0) := func s in
                r0 :: run_calls func (Datatypes.S (List.length errs)) s0).
        rewrite Hf, Hrun. reflexivity.
      * cbn [List.length]. lia.
      * intros Hr. cbn [List.length]. rewrite (Hall Hr). reflexivity.
Qed.

End RetryFacts.

Lemma safe_small (z : Z) : 0 <= z <= 2 ^ 53 -> Retry.safe z.
Proof. unfold Retry.safe. lia. Qed.

Lemma integers_exact : Retry.exact_on_integers Retry.integers.
Proof. split; intros; reflexivity. Qed.

(** The waits of a run are the integer products, in an arithmetic that is
    exact on integers and as long as every number involved is an integer a
    double holds exactly. *)
Lemma exact_delays (A : Retry.arithmetic) (dz bz : Z) (k : nat) :
  Retry.exact_on_integers A ->
  Retry.safe dz -> Retry.safe bz ->
  (forall i, (i < k)%nat ->
     Retry.safe (Z.of_nat i) /\ Retry.safe (bz ^ Z.of_nat i)
     /\ Retry.safe (dz * bz ^ Z.of_nat i)) ->
  map (fun i => Retry.mul A
                  (Retry.pow A (Retry.literal A bz)
                     (Retry.literal A (Z.of_nat i)))
                  (Retry.literal A dz)) (seq 0 k)
  = map (fun i => Retry.literal A (dz * bz ^ Z.of_nat i)) (seq 0 k).
Proof.
  intros [Hpow Hmul] Hd Hb Hsafe. apply map_ext_in. intros i Hi.
  apply in_seq in Hi. destruct (Hsafe i ltac:(lia)) as (Hi1 & Hi2 & Hi3).
  rewrite Hpow by (assumption || lia).
  rewrite Hmul; [f_equal; lia | assumption | assumption |].
  replace (bz ^ Z.of_nat i * dz) with (dz * bz ^ Z.of_nat i) by lia.
  exact Hi3.
Qed.



(** The specification's example: three attempts, 1000 ms, multiplier 2.
    In every arithmetic that is exact on integers, that of doubles
    included, the two waits are 1000 and 2000. *)
Example retry_fails_twice_then_succeeds (A : Retry.arithmetic) :
  Retry.exact_on_integers A ->
  let run := Retry.retry A (fails_first 2) 3 (str "op") None None 0%nat in
  Retry.delays (fst (fst run)) = [Retry.literal A 1000; Retry.literal A 2000]
  /\ Retry.calls (fst (fst run)) = [Threw 0%nat; Threw 1%nat; Returned 42]
  /\ snd (fst run) = Returned 42
  /\ snd run = 3%nat.
Proof.
  intros Hexact run. repeat split.
  change (Retry.delays (fst (fst run)))
    with (map (fun i => Retry.mul A
                          (Retry.pow A (Retry.literal A 2)
                             (Retry.literal A (Z.of_nat i)))
                          (Retry.literal A 1000)) (seq 0 2)).
  rewrite (exact_delays A 1000 2 2 Hexact);
    [reflexivity | apply safe_small; lia | apply safe_small; lia |].
  intros i Hi. assert (Hcase : i = 0%nat \/ i = 1%nat) by lia.
  destruct Hcase as [-> | ->]; repeat split; apply safe_small; cbn; lia.
Qed.

Example retry_fails_three_times (A : Retry.arithmetic) :
  let run := Retry.retry A (fails_first 5) 3 (str "op") None None 0%nat in
  List.length (Retry.delays (fst (fst run))) = 2%nat
  /\ Retry.calls (fst (fst run)) = [Threw 0%nat; Threw 1%nat; Threw 2%nat]
  /\ snd (fst run) = Threw 2%nat
  /\ snd run = 3%nat.
Proof. repeat split. Qed.

Lemma retry_calls_nonempty (A : Retry.arithmetic) {T E S : Type}
    (func : S -> outcome T E * S) (times : Z) (label : jsstring)
    (d b : Retry.number A) (n : nat) (s : S) :
  (1 <= List.length
          (Retry.calls
             (fst (fst (Retry.retry_loop A func times label d b n 0 s)))))%nat.
Proof.
  destruct (retry_loop_shape A func times label d b n 0 s)
    as (errs & r & Htr & _).
  change (Z.of_nat 0) with 0 in Htr. rewrite Htr.
  unfold Retry.calls. rewrite flat_map_app, length_app. cbn. lia.
Qed.

(** C9: for every operation and every integer [times], [retry] calls the
    operation at least once; when [times <= 1] the loop body does not run and
    [retry] is one unguarded call whose outcome is the result, with no wait
    and no log line. *)
Theorem retry_at_least_once (A : Retry.arithmetic) {T E S : Type}
    (func : S -> outcome T E * S) (times : Z) (label : jsstring)
    (startingDelayMs backoffScaler : option (Retry.number A)) (s : S) :
  let run := Retry.retry A func times label startingDelayMs backoffScaler s in
  (1 <= List.length (Retry.calls (fst (fst run))))%nat
  /\ (times <= 1 ->
      run = ([Retry.Called (fst (func s))], fst (func s), snd (func s))
      /\ Retry.delays (fst (fst run)) = []
      /\ Retry.logs (fst (fst run)) = []).
Proof.
  intros run. split.
  - apply retry_calls_nonempty.
  - intros Htimes.
    assert (Hrun : run = ([Retry.Called (fst (func s))], fst (func s), snd (func s))).
    { unfold run, Retry.retry, Retry.retry_with.
      replace (Z.to_nat (times - 1)) with 0%nat by lia.
      cbn [Retry.retry_loop]. unfold Retry.final_call.
      destruct (func s); reflexivity. }
    rewrite Hrun. repeat split.
Qed.

Lemma retry_at_least_once_witness :
  -3 <= 1
  /\ Retry.retry Retry.integers (fails_first 1) (-3) (str "op") None None 0%nat
     = ([Retry.Called (Threw 0%nat)], Threw 0%nat, 1%nat)
  /\ Retry.delays (fst (fst (Retry.retry Retry.integers (fails_first 1) (-3)
                               (str "op") None None 0%nat))) = []
  /\ Retry.logs (fst (fst (Retry.retry Retry.integers (fails_first 1) (-3)
                             (str "op") None None 0%nat))) = [].
Proof.
  split; [lia|].
  apply (proj2 (retry_at_least_once Retry.integers (fails_first 1) (-3)
                  (str "op") None None 0%nat)).
  lia.
Defined.

(** ** Shell dialect selection *)

Import Env.

(** C4, as the code has it: with [detectShell = true], a [SHELL] variable
    that is set gives POSIX escaping whatever the host; when [SHELL] is not
    set, cmd.exe escaping is used exactly when [ComSpec] is set and ends
    with [cmd.exe], and POSIX escaping otherwise, whatever the host. *)
Theorem shellEscape_detected_dialect
    (shellEscapeFunc : list jsstring -> jsstring) (e : env)
    (args : list jsstring) :
  (forall sh, SHELL e = Some sh ->
     Shell.shellEscape shellEscapeFunc e args (Some true)
     = map (fun v => shellEscapeFunc [v]) args)
  /\ (SHELL e = None ->
      Shell.shellEscape shellEscapeFunc e args (Some true)
      = if match ComSpec e with
           | Some c => endsWith c (str "cmd.exe")
           | None => false
           end
        then map windowsCmdExeEscapeArg args
        else map (fun v => shellEscapeFunc [v]) args).
Proof.
  unfold Shell.shellEscape, Shell.isCmdExe, Shell.isWindowsComExeShell.
  cbn [default]. split.
  - intros sh ->. reflexivity.
  - intros ->. destruct (ComSpec e); reflexivity.
Qed.

Lemma shellEscape_detected_dialect_witness :
  (SHELL {| SHELL := Some (str "/bin/bash");
            ComSpec := Some (str "C:\Windows\system32\cmd.exe");
            DEBUG := None; HTTPS_PROXY := None; HTTP_PROXY := None;
            platform := str "win32" |} = Some (str "/bin/bash")
   /\ Shell.shellEscape single_quoted
        {| SHELL := Some (str "/bin/bash");
           ComSpec := Some (str "C:\Windows\system32\cmd.exe");
           DEBUG := None; HTTPS_PROXY := None; HTTP_PROXY := None;
           platform := str "win32" |} [str "a b"] (Some true)
      = [str "'a b'"])
  /\ (SHELL {| SHELL := None;
               ComSpec := Some (str "C:\Windows\system32\cmd.exe");
               DEBUG := None; HTTPS_PROXY := None; HTTP_PROXY := None;
               platform := str "win32" |} = None
      /\ Shell.shellEscape single_quoted
           {| SHELL := None;
              ComSpec := Some (str "C:\Windows\system32\cmd.exe");
              DEBUG := None; HTTPS_PROXY := None; HTTP_PROXY := None;
              platform := str "win32" |} [str "a b"] (Some true)
         = [[quote] ++ str "a b" ++ [quote]]).
Proof.
  split; (split; [reflexivity|]).
  - apply (proj1 (shellEscape_detected_dialect single_quoted _ [str "a b"])
             (str "/bin/bash")).
    reflexivity.
  - apply (proj2 (shellEscape_detected_dialect single_quoted
                    {| SHELL := None;
                       ComSpec := Some (str "C:\Windows\system32\cmd.exe");
                       DEBUG := None; HTTPS_PROXY := None; HTTP_PROXY := None;
                       platform := str "win32" |} [str "a b"])).
    reflexivity.
Defined.

(** C4 fails when [SHELL] is not set: the host is not looked at.  On a
    Windows host without [ComSpec] the arguments are escaped the POSIX way,
    and on a Linux host whose [ComSpec] ends with [cmd.exe] they are escaped
    the cmd.exe way; both differ from the escaping of the host's native
    shell, which is what [detectShell = false] gives. *)
Lemma detected_dialect_ignores_host :
  SHELL (bare_env (str "win32")) = None
  /\ Shell.shellEscape single_quoted (bare_env (str "win32")) [str "a b"]
       (Some true) = [str "'a b'"]
  /\ Shell.shellEscape single_quoted (bare_env (str "win32")) [str "a b"]
       (Some false) = [[quote] ++ str "a b" ++ [quote]]
  /\ Shell.shellEscape single_quoted
       {| SHELL := None; ComSpec := Some (str "cmd.exe"); DEBUG := None;
          HTTPS_PROXY := None; HTTP_PROXY := None; platform := str "linux" |}
       [str "a b"] (Some true) = [[quote] ++ str "a b" ++ [quote]]
  /\ ~ (forall (f : list jsstring -> jsstring) (e : env) (args : list jsstring),
          SHELL e = None ->
          Shell.shellEscape f e args (Some true)
          = Shell.shellEscape f e args (Some false)).
Proof.
  repeat split.
  intros H.
  specialize (H single_quoted (bare_env (str "win32")) [str "a b"] eq_refl).
  discriminate H.
Qed.

(** ** Locating a program *)

(** C6: when the lookup fails with [ENOENT], [which] rejects with the
    "program not found" error if [rejectOnMissing] is true or left out, and
    returns the empty string if it is false; a lookup failure with another
    code is passed on unchanged in both modes. *)
Theorem which_not_found
    (whichMod : jsstring -> outcome jsstring Spawn.lookup_error)
    (program : jsstring) (err : Spawn.lookup_error) :
  whichMod program = Threw err ->
  (Spawn.code err = Some (str "ENOENT") ->
     Spawn.which whichMod program (Some true)
     = Threw (Spawn.ExpectedError
                (str "'" ++ program ++ str "' program not found. Is it installed?"))
     /\ Spawn.which whichMod program None
        = Spawn.which whichMod program (Some true)
     /\ Spawn.which whichMod program (Some false) = Returned [])
  /\ (Spawn.code err <> Some (str "ENOENT") ->
      forall rejectOnMissing,
        Spawn.which whichMod program rejectOnMissing
        = Threw (Spawn.LookupError err)).
Proof.
  intros Hlookup. unfold Spawn.which. rewrite Hlookup. split.
  - intros Hcode. unfold Spawn.is_ENOENT. rewrite Hcode. repeat split.
  - intros Hcode flag.
    replace (Spawn.is_ENOENT err) with false; [reflexivity|].
    unfold Spawn.is_ENOENT. destruct (Spawn.code err) as [c|]; [|reflexivity].
    destruct (string_eqb c (str "ENOENT")) eqn:Hc; [|reflexivity].
    apply string_eqb_eq in Hc. congruence.
Qed.

Lemma which_not_found_witness :
  (finds_ssh (str "nosuch")
   = Threw {| Spawn.code := Some (str "ENOENT");
              Spawn.text := str "not found: nosuch" |}
   /\ Spawn.which finds_ssh (str "nosuch") (Some true)
      = Threw (Spawn.ExpectedError
                 (str "'nosuch' program not found. Is it installed?"))
   /\ Spawn.which finds_ssh (str "nosuch") None
      = Spawn.which finds_ssh (str "nosuch") (Some true)
   /\ Spawn.which finds_ssh (str "nosuch") (Some false) = Returned [])
  /\ (finds_ssh []
      = Threw {| Spawn.code := Some (str "EACCES"); Spawn.text := str "denied" |}
      /\ forall rejectOnMissing,
           Spawn.which finds_ssh [] rejectOnMissing
           = Threw (Spawn.LookupError
                      {| Spawn.code := Some (str "EACCES");
                         Spawn.text := str "denied" |})).
Proof.
  split; (split; [reflexivity|]).
  - apply (proj1 (which_not_found finds_ssh (str "nosuch") _ eq_refl)).
    reflexivity.
  - apply (proj2 (which_not_found finds_ssh [] _ eq_refl)).
    discriminate.
Defined.

(** ** Spawning a program *)

Lemma occurs_in_refl (s : jsstring) : Spawn.occurs_in s s.
Proof. exists [], []. now rewrite app_nil_r. Qed.

Lemma occurs_in_app_l (sub s t : jsstring) :
  Spawn.occurs_in sub s -> Spawn.occurs_in sub (s ++ t).
Proof.
  intros (b & a & ->). exists b, (a ++ t). now rewrite <- !app_assoc.
Qed.

Lemma occurs_in_app_r (sub s t : jsstring) :
  Spawn.occurs_in sub t -> Spawn.occurs_in sub (s ++ t).
Proof.
  intros (b & a & ->). exists (s ++ b), a. now rewrite <- !app_assoc.
Qed.

Lemma occurs_in_trans (a b c : jsstring) :
  Spawn.occurs_in a b -> Spawn.occurs_in b c -> Spawn.occurs_in a c.
Proof.
  intros Hab (p & q & ->). apply occurs_in_app_r, occurs_in_app_l, Hab.
Qed.

Lemma occurs_in_join (sep : jsstring) (parts : list jsstring) (p : jsstring) :
  In p parts -> Spawn.occurs_in p (join sep parts).
Proof.
  induction parts as [|q rest IH]; intros Hin; [destruct Hin|].
  destruct rest as [|q' rest'].
  - destruct Hin as [->|[]]. apply occurs_in_refl.
  - change (join sep (q :: q' :: rest'))
      with (q ++ sep ++ join sep (q' :: rest')).
    destruct Hin as [->|Hin].
    + apply occurs_in_app_l, occurs_in_refl.
    + apply occurs_in_app_r, occurs_in_app_r, IH, Hin.
Qed.

Create HintDb occurs.
#[local] Hint Resolve occurs_in_refl occurs_in_app_l occurs_in_app_r : occurs.

(** What the error text carries. *)
Lemma failure_message_carries (programName program : jsstring)
    (args : list jsstring) (exitCode : Spawn.nullable Z)
    (exitSignal : Spawn.nullable jsstring) (error : option jsstring) :
  let msg := Spawn.failure_message programName program args exitCode
               exitSignal error in
  Spawn.occurs_in programName msg
  /\ Spawn.occurs_in program msg
  /\ Spawn.occurs_in (join (str ", ") args) msg
  /\ Forall (fun a => Spawn.occurs_in a msg) args
  /\ Spawn.occurs_in
       (str "exit code=" ++ Spawn.show_nullable Spawn.number_to_string exitCode) msg
  /\ Spawn.occurs_in
       (str "signal=" ++ Spawn.show_nullable (fun s => s) exitSignal) msg
  /\ (forall e, error = Some e -> Spawn.occurs_in e msg).
Proof.
  intros msg.
  set (line1 := programName ++ str " failed with exit code="
        ++ Spawn.show_nullable Spawn.number_to_string exitCode
        ++ str " signal=" ++ Spawn.show_nullable (fun s => s) exitSignal ++ str ":").
  set (line2 := str "[" ++ program ++ str ", " ++ join (str ", ") args ++ str "]").
  assert (H1 : Spawn.occurs_in line1 msg).
  { apply occurs_in_join. unfold line1. destruct error; simpl; auto. }
  assert (H2 : Spawn.occurs_in line2 msg).
  { apply occurs_in_join. unfold line2. destruct error; simpl; auto. }
  assert (Hargs : Spawn.occurs_in (join (str ", ") args) msg).
  { apply occurs_in_trans with line2; [|exact H2]. unfold line2.
    auto 10 with occurs. }
  repeat split.
  - apply occurs_in_trans with line1; [|exact H1]. unfold line1.
    auto with occurs.
  - apply occurs_in_trans with line2; [|exact H2]. unfold line2.
    auto with occurs.
  - exact Hargs.
  - apply Forall_forall. intros a Ha.
    apply occurs_in_trans with (join (str ", ") args); [|exact Hargs].
    apply occurs_in_join, Ha.
  - apply occurs_in_trans with line1; [|exact H1]. unfold line1.
    exists (programName ++ str " failed with "),
      (str " signal=" ++ Spawn.show_nullable (fun s => s) exitSignal ++ str ":").
    now rewrite <- !app_assoc.
  - apply occurs_in_trans with line1; [|exact H1]. unfold line1.
    exists (programName ++ str " failed with exit code="
            ++ Spawn.show_nullable Spawn.number_to_string exitCode ++ str " "),
      (str ":").
    now rewrite <- !app_assoc.
  - intros e ->. apply occurs_in_join. simpl. auto.
Qed.

Section WhichSpawnFacts.

Import Spawn.

Context {Options : Type}.
Variable whichMod : jsstring -> outcome jsstring lookup_error.
Variable spawn : jsstring -> list jsstring -> Options -> spawn_end.
Variable e : env.
Variable programName program : jsstring.
Variable args : list jsstring.
Variable options : Options.
Hypothesis located : whichMod programName = Returned program.

Lemma whichSpawn_closed (c : nullable Z) (sg : nullable jsstring)
    (policy : option bool) :
  spawn program args options = CloseEvent c sg ->
  snd (whichSpawn whichMod spawn e programName args options policy)
  = if negb (default false policy) && (code_truthy c || signal_truthy sg)
    then Threw (Error (failure_message programName program args c sg None))
    else Returned (c, sg).
Proof.
  intros Hs. unfold whichSpawn, which. rewrite located, Hs. cbn [orb].
  destruct (negb (default false policy) && (code_truthy c || signal_truthy sg));
    reflexivity.
Qed.

Lemma whichSpawn_error (errText : jsstring) (policy : option bool) :
  spawn program args options = ErrorEvent errText ->
  snd (whichSpawn whichMod spawn e programName args options policy)
  = Threw (Error (failure_message programName program args Undefined
                    Undefined (Some errText))).
Proof.
  intros Hs. unfold whichSpawn, which. rewrite located, Hs. reflexivity.
Qed.

End WhichSpawnFacts.

(** C5: for a program that [which] resolves, an exit with code 0 and no
    signal gives [(0, absent)] under either policy; death by a signal gives
    [(absent, signal)] when exit code and signal are asked for; under the
    default policy a non-zero exit code or a non-empty signal rejects with
    an error whose text carries the program name, the resolved path, every
    argument, the exit code and the signal; an error event of [spawn]
    rejects under either policy. *)
Theorem whichSpawn_exit_code_or_signal {Options : Type}
    (whichMod : jsstring -> outcome jsstring Spawn.lookup_error)
    (spawn : jsstring -> list jsstring -> Options -> Spawn.spawn_end)
    (e : env) (programName program : jsstring) (args : list jsstring)
    (options : Options) :
  whichMod programName = Returned program ->
  let run := fun policy =>
    snd (Spawn.whichSpawn whichMod spawn e programName args options policy) in
  let carried := fun c sg msg =>
    Spawn.occurs_in programName msg
    /\ Spawn.occurs_in program msg
    /\ Spawn.occurs_in (join (str ", ") args) msg
    /\ Forall (fun a => Spawn.occurs_in a msg) args
    /\ Spawn.occurs_in
         (str "exit code=" ++ Spawn.show_nullable Spawn.number_to_string c) msg
    /\ Spawn.occurs_in
         (str "signal=" ++ Spawn.show_nullable (fun s => s) sg) msg in
  (spawn program args options = Spawn.CloseEvent (Spawn.Val 0) Spawn.Null ->
     forall policy, run policy = Returned (Spawn.Val 0, Spawn.Null))
  /\ (forall sg, sg <> [] ->
        spawn program args options = Spawn.CloseEvent Spawn.Null (Spawn.Val sg) ->
        run (Some true) = Returned (Spawn.Null, Spawn.Val sg))
  /\ (forall c sg,
        spawn program args options = Spawn.CloseEvent c sg ->
        Spawn.code_truthy c = true \/ Spawn.signal_truthy sg = true ->
        exists msg,
          run None = Threw (Spawn.Error msg)
          /\ run (Some false) = Threw (Spawn.Error msg)
          /\ carried c sg msg)
  /\ (forall errText,
        spawn program args options = Spawn.ErrorEvent errText ->
        exists msg,
          (forall policy, run policy = Threw (Spawn.Error msg))
          /\ Spawn.occurs_in errText msg
          /\ carried Spawn.Undefined Spawn.Undefined msg).
Proof.
  intros Hloc run carried. repeat apply conj.
  - intros Hs policy. unfold run.
    rewrite (whichSpawn_closed whichMod spawn e programName program args
               options Hloc _ _ policy Hs).
    cbn. now rewrite andb_false_r.
  - intros sg Hsg Hs. unfold run.
    rewrite (whichSpawn_closed whichMod spawn e programName program args
               options Hloc _ _ (Some true) Hs).
    reflexivity.
  - intros c sg Hs Hfail.
    exists (Spawn.failure_message programName program args c sg None).
    assert (Ht : Spawn.code_truthy c || Spawn.signal_truthy sg = true)
      by (apply orb_true_iff; exact Hfail).
    unfold run.
    rewrite !(whichSpawn_closed whichMod spawn e programName program args
                options Hloc _ _ _ Hs).
    cbn [default negb andb]. rewrite Ht.
    destruct (failure_message_carries programName program args c sg None)
      as (A & B & C & D & F & G & _).
    unfold carried. repeat split; assumption.
  - intros errText Hs.
    exists (Spawn.failure_message programName program args Spawn.Undefined
              Spawn.Undefined (Some errText)).
    split; [|split].
    + intros policy. unfold run.
      apply (whichSpawn_error whichMod spawn e programName program args
               options Hloc _ policy Hs).
    + now apply failure_message_carries.
    + destruct (failure_message_carries programName program args
                  Spawn.Undefined Spawn.Undefined (Some errText))
        as (A & B & C & D & F & G & _).
      unfold carried. repeat split; assumption.
Qed.

Lemma whichSpawn_exit_code_or_signal_witness :
  finds_ssh (str "ssh") = Returned (str "/usr/bin/ssh")
  /\ (forall policy,
        snd (Spawn.whichSpawn finds_ssh child (bare_env (str "linux"))
               (str "ssh") [str "ok"] tt policy)
        = Returned (Spawn.Val 0, Spawn.Null))
  /\ snd (Spawn.whichSpawn finds_ssh child (bare_env (str "linux"))
            (str "ssh") [str "kill"] tt (Some true))
     = Returned (Spawn.Null, Spawn.Val (str "SIGTERM"))
  /\ (exists msg,
        snd (Spawn.whichSpawn finds_ssh child (bare_env (str "linux"))
               (str "ssh") [str "fail"] tt None) = Threw (Spawn.Error msg)
        /\ Spawn.occurs_in (str "exit code=2") msg)
  /\ (exists msg,
        forall policy,
          snd (Spawn.whichSpawn finds_ssh child (bare_env (str "linux"))
                 (str "ssh") [str "boom"] tt policy) = Threw (Spawn.Error msg)).
Proof.
  split; [reflexivity|]. repeat apply conj.
  - apply (proj1 (whichSpawn_exit_code_or_signal finds_ssh child
                    (bare_env (str "linux")) (str "ssh") (str "/usr/bin/ssh")
                    [str "ok"] tt eq_refl)).
    reflexivity.
  - apply (proj1 (proj2 (whichSpawn_exit_code_or_signal finds_ssh child
                    (bare_env (str "linux")) (str "ssh") (str "/usr/bin/ssh")
                    [str "kill"] tt eq_refl)) (str "SIGTERM")).
    + discriminate.
    + reflexivity.
  - destruct (proj1 (proj2 (proj2 (whichSpawn_exit_code_or_signal finds_ssh
                    child (bare_env (str "linux")) (str "ssh")
                    (str "/usr/bin/ssh") [str "fail"] tt eq_refl)))
                (Spawn.Val 2) Spawn.Null eq_refl (or_introl eq_refl))
      as (msg & Hnone & _ & _ & _ & _ & _ & Hcode & _).
    exists msg. split; [exact Hnone | exact Hcode].
  - destruct (proj2 (proj2 (proj2 (whichSpawn_exit_code_or_signal finds_ssh
                    child (bare_env (str "linux")) (str "ssh")
                    (str "/usr/bin/ssh") [str "boom"] tt eq_refl)))
                (str "Error: spawn EACCES") eq_refl)
      as (msg & Hall & _).
    exists msg. exact Hall.
Defined.

(** The error text for an exit code of 2, and for a child that could not be
    started. *)
Example whichSpawn_failure_text :
  snd (Spawn.whichSpawn finds_ssh child (bare_env (str "linux")) (str "ssh")
         [str "fail"] tt None)
  = Threw (Spawn.Error (str "ssh failed with exit code=2 signal=null:"
                          ++ [10%N] ++ str "[/usr/bin/ssh, fail]"))
  /\ snd (Spawn.whichSpawn finds_ssh child (bare_env (str "linux")) (str "ssh")
            [str "-v"; str "host"] tt (Some true))
     = Threw (Spawn.Error
                (str "ssh failed with exit code=undefined signal=undefined:"
                   ++ [10%N] ++ str "[/usr/bin/ssh, -v, host]"
                   ++ [10%N] ++ str "Error: spawn EACCES")).
Proof. split; reflexivity. Qed.

(** ** Proxy configuration *)

Lemma lastIndexOf_from_absent (s : jsstring) (c : char) (i found : Z) :
  ~ In c s -> lastIndexOf_from s c i found = found.
Proof.
  revert i found. induction s as [|a s IH]; intros i found Hin; [reflexivity|].
  cbn [lastIndexOf_from].
  destruct (char_eqb a c) eqn:Hac.
  - apply char_eqb_eq in Hac. subst a. exfalso. apply Hin. now left.
  - apply IH. intros H. apply Hin. now right.
Qed.

Lemma lastIndexOf_from_last (u p : jsstring) (c : char) (i found : Z) :
  ~ In c p ->
  lastIndexOf_from (u ++ c :: p) c i found = i + Z.of_nat (List.length u).
Proof.
  intros Hp. revert i found. induction u as [|a u IH]; intros i found.
  - cbn [app lastIndexOf_from List.length]. rewrite char_eqb_refl.
    rewrite lastIndexOf_from_absent by exact Hp. cbn. lia.
  - cbn [app lastIndexOf_from]. rewrite IH. cbn [List.length]. lia.
Qed.

Lemma substring_before (u p : jsstring) (c : char) :
  substring (u ++ c :: p) 0 (Z.of_nat (List.length u)) = u.
Proof.
  unfold substring, length. rewrite length_app. cbn [List.length].
  rewrite (Z.max_l 0 0) by lia.
  rewrite (Z.min_l 0) by lia.
  rewrite (Z.max_l (Z.of_nat (List.length u)) 0) by lia.
  rewrite (Z.min_l (Z.of_nat (List.length u))) by lia.
  rewrite Z.min_l, Z.max_r by lia.
  cbn [Z.to_nat skipn]. rewrite Z.sub_0_r, Nat2Z.id.
  rewrite firstn_app, firstn_all, Nat.sub_diag. cbn. apply app_nil_r.
Qed.

Lemma substring_after (u p : jsstring) (c : char) :
  substring_from (u ++ c :: p) (Z.of_nat (List.length u) + 1) = p.
Proof.
  unfold substring_from, substring, length. rewrite length_app.
  cbn [List.length].
  set (n := List.length u). set (m := List.length p).
  rewrite (Z.max_l (Z.of_nat n + 1) 0) by lia.
  rewrite (Z.min_l (Z.of_nat n + 1)) by lia.
  rewrite (Z.max_l (Z.of_nat (n + Datatypes.S m)) 0) by lia.
  rewrite (Z.min_l (Z.of_nat (n + Datatypes.S m))) by lia.
  rewrite Z.min_l, Z.max_r by lia.
  replace (Z.to_nat (Z.of_nat n + 1)) with (n + 1)%nat by lia.
  replace (Z.to_nat (Z.of_nat (n + Datatypes.S m) - (Z.of_nat n + 1)))
    with m by lia.
  replace (u ++ c :: p) with ((u ++ [c]) ++ p) by now rewrite <- app_assoc.
  rewrite skipn_app.
  replace (List.length (u ++ [c])) with (n + 1)%nat
    by (rewrite length_app; reflexivity).
  rewrite skipn_all2 by (rewrite length_app; cbn; lia).
  rewrite Nat.sub_diag. cbn. apply firstn_all.
Qed.

Lemma split_auth_last_colon (u p : jsstring) :
  ~ In Proxy.colon p ->
  Proxy.split_auth (Some (u ++ Proxy.colon :: p))
  = match u with [] => (None, None) | _ => (Some u, Some p) end.
Proof.
  intros Hp. unfold Proxy.split_auth.
  replace (truthy_opt (Some (u ++ Proxy.colon :: p))) with true
    by (destruct u; reflexivity).
  cbn [default]. unfold lastIndexOf. rewrite lastIndexOf_from_last by exact Hp.
  destruct u as [|a u]; [reflexivity|].
  replace (0 <? 0 + Z.of_nat (List.length (a :: u))) with true
    by (symmetry; apply Z.ltb_lt; cbn [List.length]; lia).
  rewrite Z.add_0_l, substring_before, substring_after. reflexivity.
Qed.

Lemma split_auth_no_colon (pa : jsstring) :
  ~ In Proxy.colon pa -> Proxy.split_auth (Some pa) = (None, None).
Proof.
  intros Hp. unfold Proxy.split_auth.
  destruct (truthy_opt (Some pa)); [|reflexivity].
  cbn [default]. unfold lastIndexOf.
  rewrite lastIndexOf_from_absent by exact Hp. reflexivity.
Qed.

Lemma getProxyConfig_tunnel {Exn : Type} (cfg : Proxy.tunnel_config)
    (newURL : jsstring -> outcome Proxy.URL Exn) (e : env) :
  Proxy.getProxyConfig (Some cfg) newURL e
  = Returned (Some {|
      Proxy.host := Proxy.tunnel_host cfg;
      Proxy.port := Proxy.tunnel_port cfg;
      Proxy.username := fst (Proxy.split_auth (Proxy.tunnel_proxyAuth cfg));
      Proxy.password := snd (Proxy.split_auth (Proxy.tunnel_proxyAuth cfg));
      Proxy.proxyAuth := Proxy.tunnel_proxyAuth cfg |}).
Proof.
  unfold Proxy.getProxyConfig.
  destruct (Proxy.split_auth (Proxy.tunnel_proxyAuth cfg)). reflexivity.
Qed.

(** C7: the global tunnel configuration has full precedence: when it is
    present the result is made of its fields alone, whatever the environment
    holds; when it is absent and [HTTPS_PROXY] is set, that is, holds a
    non-empty string, the result is made from the URL of [HTTPS_PROXY],
    whatever [HTTP_PROXY] holds; an [HTTPS_PROXY] that is unset or empty
    gives way to [HTTP_PROXY]; and a proxy URL that does not parse gives
    [undefined], not an error. *)
Theorem getProxyConfig_precedence {Exn : Type}
    (newURL : jsstring -> outcome Proxy.URL Exn) (e : env) :
  let from_url := fun proxyUrl : jsstring =>
    match newURL proxyUrl with
    | Returned url =>
        Returned (Some {|
          Proxy.host := Proxy.url_hostname url;
          Proxy.port := Proxy.url_port url;
          Proxy.username := Some (Proxy.url_username url);
          Proxy.password := Some (Proxy.url_password url);
          Proxy.proxyAuth :=
            if truthy (Proxy.url_username url) && truthy (Proxy.url_password url)
            then Some (Proxy.url_username url ++ [Proxy.colon]
                       ++ Proxy.url_password url)
            else None |})
    | Threw _ => Returned None
    end in
  (forall cfg,
     Proxy.getProxyConfig (Some cfg) newURL e
     = Returned (Some {|
         Proxy.host := Proxy.tunnel_host cfg;
         Proxy.port := Proxy.tunnel_port cfg;
         Proxy.username := fst (Proxy.split_auth (Proxy.tunnel_proxyAuth cfg));
         Proxy.password := snd (Proxy.split_auth (Proxy.tunnel_proxyAuth cfg));
         Proxy.proxyAuth := Proxy.tunnel_proxyAuth cfg |}))
  /\ (forall https,
        HTTPS_PROXY e = Some https -> https <> [] ->
        Proxy.getProxyConfig None newURL e = from_url https)
  /\ (forall http,
        HTTPS_PROXY e = None \/ HTTPS_PROXY e = Some [] ->
        HTTP_PROXY e = Some http -> http <> [] ->
        Proxy.getProxyConfig None newURL e = from_url http)
  /\ (forall proxyUrl exn,
        or_else (HTTPS_PROXY e) (HTTP_PROXY e) = Some proxyUrl ->
        newURL proxyUrl = Threw exn ->
        Proxy.getProxyConfig None newURL e = Returned None).
Proof.
  intros from_url. unfold from_url. repeat apply conj.
  - intros cfg. apply getProxyConfig_tunnel.
  - intros https H1 Hne. unfold Proxy.getProxyConfig, or_else. rewrite H1.
    destruct https as [|c u]; [congruence|]. cbn [truthy_opt truthy].
    destruct (newURL (c :: u)); reflexivity.
  - intros http H1 H2 Hne. unfold Proxy.getProxyConfig, or_else. rewrite H2.
    destruct http as [|c u]; [congruence|].
    destruct H1 as [-> | ->]; cbn [truthy_opt truthy];
      destruct (newURL (c :: u)); reflexivity.
  - intros proxyUrl exn Hurl Hthrow. unfold Proxy.getProxyConfig.
    rewrite Hurl, Hthrow. destruct (truthy proxyUrl); reflexivity.
Qed.

Lemma getProxyConfig_precedence_witness :
  (HTTPS_PROXY (proxy_env (Some (str "https://u:p@secure:8443"))
                  (Some (str "http://plain:8080")))
   = Some (str "https://u:p@secure:8443")
   /\ str "https://u:p@secure:8443" <> []
   /\ Proxy.getProxyConfig None two_urls
        (proxy_env (Some (str "https://u:p@secure:8443"))
           (Some (str "http://plain:8080")))
      = Returned (Some {| Proxy.host := str "secure"; Proxy.port := str "8443";
                          Proxy.username := Some (str "u");
                          Proxy.password := Some (str "p");
                          Proxy.proxyAuth := Some (str "u:p") |}))
  /\ (HTTPS_PROXY (proxy_env (Some []) (Some (str "http://plain:8080")))
      = Some []
      /\ Proxy.getProxyConfig None two_urls
           (proxy_env (Some []) (Some (str "http://plain:8080")))
         = Returned (Some {| Proxy.host := str "plain"; Proxy.port := str "8080";
                             Proxy.username := Some [];
                             Proxy.password := Some [];
                             Proxy.proxyAuth := None |}))
  /\ (or_else (HTTPS_PROXY (proxy_env (Some (str "no url")) None))
        (HTTP_PROXY (proxy_env (Some (str "no url")) None))
      = Some (str "no url")
      /\ two_urls (str "no url") = Threw tt
      /\ Proxy.getProxyConfig None two_urls (proxy_env (Some (str "no url")) None)
         = Returned None).
Proof.
  split; [|split].
  - split; [reflexivity|]. split; [discriminate|].
    apply (proj1 (proj2 (getProxyConfig_precedence two_urls
             (proxy_env (Some (str "https://u:p@secure:8443"))
                (Some (str "http://plain:8080")))))
             (str "https://u:p@secure:8443") eq_refl).
    discriminate.
  - split; [reflexivity|].
    apply (proj1 (proj2 (proj2 (getProxyConfig_precedence two_urls
             (proxy_env (Some []) (Some (str "http://plain:8080"))))))
             (str "http://plain:8080")).
    + right. reflexivity.
    + reflexivity.
    + discriminate.
  - split; [reflexivity|]. split; [reflexivity|].
    apply (proj2 (proj2 (proj2 (getProxyConfig_precedence two_urls
             (proxy_env (Some (str "no url")) None))))
             (str "no url") tt eq_refl eq_refl).
Defined.

(** With the tunnel configuration present, two environments and two [URL]
    constructors give the same result. *)
Example getProxyConfig_tunnel_ignores_environment :
  Proxy.getProxyConfig (Some (tunnel (Some (str "user:secret")))) two_urls
    (proxy_env (Some (str "https://u:p@secure:8443"))
       (Some (str "http://plain:8080")))
  = Returned (Some {| Proxy.host := str "proxy"; Proxy.port := str "3128";
                      Proxy.username := Some (str "user");
                      Proxy.password := Some (str "secret");
                      Proxy.proxyAuth := Some (str "user:secret") |})
  /\ Proxy.getProxyConfig (Some (tunnel (Some (str "user:secret"))))
       (fun _ => Threw tt) (bare_env (str "win32"))
     = Returned (Some {| Proxy.host := str "proxy"; Proxy.port := str "3128";
                         Proxy.username := Some (str "user");
                         Proxy.password := Some (str "secret");
                         Proxy.proxyAuth := Some (str "user:secret") |}).
Proof. split; reflexivity. Qed.

(** An [HTTPS_PROXY] that holds the empty string counts as not set: the
    configuration comes from [HTTP_PROXY], and there is none when
    [HTTP_PROXY] is not set. *)
Example empty_HTTPS_PROXY_gives_way :
  Proxy.getProxyConfig None two_urls
    (proxy_env (Some []) (Some (str "http://plain:8080")))
  = Returned (Some {| Proxy.host := str "plain"; Proxy.port := str "8080";
                      Proxy.username := Some []; Proxy.password := Some [];
                      Proxy.proxyAuth := None |})
  /\ Proxy.getProxyConfig None two_urls (proxy_env (Some []) None)
     = Returned None.
Proof. split; reflexivity. Qed.

(** C10: with the tunnel configuration present, the returned [proxyAuth] is
    the raw string; when that string splits at its last colon into a
    non-empty text before and a text after, these are [username] and
    [password]; when it is absent, has no colon, or has its only colon at
    index 0, [username] and [password] are both absent. *)
Theorem getProxyConfig_tunnel_auth {Exn : Type} (cfg : Proxy.tunnel_config)
    (newURL : jsstring -> outcome Proxy.URL Exn) (e : env) :
  exists c : Proxy.ProxyConfig,
    Proxy.getProxyConfig (Some cfg) newURL e = Returned (Some c)
    /\ Proxy.proxyAuth c = Proxy.tunnel_proxyAuth cfg
    /\ (forall u p,
          Proxy.tunnel_proxyAuth cfg = Some (u ++ Proxy.colon :: p) ->
          ~ In Proxy.colon p -> u <> [] ->
          lastIndexOf (u ++ Proxy.colon :: p) Proxy.colon
          = Z.of_nat (List.length u)
          /\ Proxy.username c = Some u /\ Proxy.password c = Some p)
    /\ (Proxy.tunnel_proxyAuth cfg = None ->
        Proxy.username c = None /\ Proxy.password c = None)
    /\ (forall pa,
          Proxy.tunnel_proxyAuth cfg = Some pa -> ~ In Proxy.colon pa ->
          Proxy.username c = None /\ Proxy.password c = None)
    /\ (forall p,
          Proxy.tunnel_proxyAuth cfg = Some (Proxy.colon :: p) ->
          ~ In Proxy.colon p ->
          lastIndexOf (Proxy.colon :: p) Proxy.colon = 0
          /\ Proxy.username c = None /\ Proxy.password c = None).
Proof.
  eexists. split; [apply getProxyConfig_tunnel|].
  cbn [Proxy.proxyAuth Proxy.username Proxy.password].
  repeat apply conj.
  - reflexivity.
  - intros u p Hpa Hp Hu. rewrite Hpa, split_auth_last_colon by exact Hp.
    split.
    + unfold lastIndexOf. rewrite lastIndexOf_from_last by exact Hp. lia.
    + destruct u; [congruence|]. split; reflexivity.
  - intros ->. split; reflexivity.
  - intros pa Hpa Hno. rewrite Hpa, split_auth_no_colon by exact Hno.
    split; reflexivity.
  - intros p Hpa Hp. rewrite Hpa.
    pose proof (split_auth_last_colon [] p Hp) as Hs.
    pose proof (lastIndexOf_from_last [] p Proxy.colon 0 (-1) Hp) as Hi.
    cbn [app] in Hs, Hi. rewrite Hs. split; [|split; reflexivity].
    unfold lastIndexOf. rewrite Hi. reflexivity.
Qed.

Lemma getProxyConfig_tunnel_auth_witness :
  (exists c : Proxy.ProxyConfig,
     Proxy.getProxyConfig (Some (tunnel (Some (str "user:pa:ss")))) two_urls
       (proxy_env (Some (str "http://plain:8080")) None) = Returned (Some c)
     /\ Proxy.proxyAuth c = Some (str "user:pa:ss")
     /\ Proxy.username c = Some (str "user:pa")
     /\ Proxy.password c = Some (str "ss"))
  /\ (exists c : Proxy.ProxyConfig,
        Proxy.getProxyConfig (Some (tunnel None)) two_urls
          (bare_env (str "linux")) = Returned (Some c)
        /\ Proxy.username c = None /\ Proxy.password c = None)
  /\ (exists c : Proxy.ProxyConfig,
        Proxy.getProxyConfig (Some (tunnel (Some (str "token")))) two_urls
          (bare_env (str "linux")) = Returned (Some c)
        /\ Proxy.proxyAuth c = Some (str "token")
        /\ Proxy.username c = None /\ Proxy.password c = None)
  /\ (exists c : Proxy.ProxyConfig,
        Proxy.getProxyConfig (Some (tunnel (Some (str ":secret")))) two_urls
          (bare_env (str "linux")) = Returned (Some c)
        /\ Proxy.proxyAuth c = Some (str ":secret")
        /\ Proxy.username c = None /\ Proxy.password c = None).
Proof.
  repeat apply conj.
  - destruct (getProxyConfig_tunnel_auth (tunnel (Some (str "user:pa:ss")))
                two_urls (proxy_env (Some (str "http://plain:8080")) None))
      as (c & Hc & Hauth & Hsplit & _).
    exists c. split; [exact Hc|]. split; [exact Hauth|].
    apply (Hsplit (str "user:pa") (str "ss") eq_refl).
    + intros [H|[H|[]]]; discriminate H.
    + discriminate.
  - destruct (getProxyConfig_tunnel_auth (tunnel None) two_urls
                (bare_env (str "linux")))
      as (c & Hc & _ & _ & Hnone & _).
    exists c. split; [exact Hc|]. apply Hnone. reflexivity.
  - destruct (getProxyConfig_tunnel_auth (tunnel (Some (str "token")))
                two_urls (bare_env (str "linux")))
      as (c & Hc & Hauth & _ & _ & Hno & _).
    exists c. split; [exact Hc|]. split; [exact Hauth|].
    apply (Hno (str "token") eq_refl).
    intros [H|[H|[H|[H|[H|[]]]]]]; discriminate H.
  - destruct (getProxyConfig_tunnel_auth (tunnel (Some (str ":secret")))
                two_urls (bare_env (str "linux")))
      as (c & Hc & Hauth & _ & _ & _ & Hzero).
    exists c. split; [exact Hc|]. split; [exact Hauth|].
    apply (Hzero (str "secret") eq_refl).
    intros [H|[H|[H|[H|[H|[H|[]]]]]]]; discriminate H.
Defined.

(** The configurations for some [proxyAuth] strings. *)
Example getProxyConfig_tunnel_examples :
  Proxy.getProxyConfig (Exn := unit) (Some (tunnel (Some (str "user:pa:ss"))))
    two_urls (bare_env (str "linux"))
  = Returned (Some {| Proxy.host := str "proxy"; Proxy.port := str "3128";
                      Proxy.username := Some (str "user:pa");
                      Proxy.password := Some (str "ss");
                      Proxy.proxyAuth := Some (str "user:pa:ss") |})
  /\ Proxy.getProxyConfig (Exn := unit) (Some (tunnel (Some (str ":secret"))))
       two_urls (bare_env (str "linux"))
     = Returned (Some {| Proxy.host := str "proxy"; Proxy.port := str "3128";
                         Proxy.username := None; Proxy.password := None;
                         Proxy.proxyAuth := Some (str ":secret") |})
  /\ Proxy.getProxyConfig (Exn := unit) (Some (tunnel (Some (str "user:"))))
       two_urls (bare_env (str "linux"))
     = Returned (Some {| Proxy.host := str "proxy"; Proxy.port := str "3128";
                         Proxy.username := Some (str "user");
                         Proxy.password := Some [];
                         Proxy.proxyAuth := Some (str "user:") |}).
Proof. repeat split. Qed.

(** ** The comparator *)

Lemma findIndex_from_found {U} (pred : U -> Z -> list U -> bool)
    (array rest : list U) (i : Z) :
  0 <= i ->
  let r := ManualSort.findIndex_from pred array rest i in
  (r = -1
   /\ forall k x, nth_error rest k = Some x ->
                  pred x (i + Z.of_nat k) array = false)
  \/ (exists k x,
        r = i + Z.of_nat k /\ nth_error rest k = Some x
        /\ pred x r array = true
        /\ forall j y, (j < k)%nat -> nth_error rest j = Some y ->
                       pred y (i + Z.of_nat j) array = false).
Proof.
  revert i. induction rest as [|x rest IH]; intros i Hi r.
  - left. split; [reflexivity|]. intros [|k] y H; discriminate H.
  - unfold r. cbn [ManualSort.findIndex_from].
    destruct (pred x i array) eqn:Hp.
    + right. exists 0%nat, x. rewrite Z.add_0_r. repeat split; auto.
      intros j y Hj. lia.
    + destruct (IH (i + 1) ltac:(lia)) as [[Hr Hall] | (k & y & Hr & Hn & Hy & Hbefore)].
      * left. split; [exact Hr|].
        intros [|k] y Hn.
        -- injection Hn as <-. now rewrite Z.add_0_r.
        -- replace (i + Z.of_nat (Datatypes.S k)) with (i + 1 + Z.of_nat k) by lia.
           apply Hall, Hn.
      * right. exists (Datatypes.S k), y. repeat split.
        -- rewrite Hr. lia.
        -- exact Hn.
        -- exact Hy.
        -- intros [|j] z Hj Hz.
           ++ injection Hz as <-. now rewrite Z.add_0_r.
           ++ replace (i + Z.of_nat (Datatypes.S j)) with (i + 1 + Z.of_nat j)
                by lia.
              apply (Hbefore j z); [lia | exact Hz].
Qed.

(** An index is given exactly when some element of the reference list
    passes the test. *)
Lemma index_of_found {T U} (reference : list U)
    (equalityFunc : T -> U -> Z -> list U -> bool) (a : T) :
  0 <= ManualSort.index_of reference equalityFunc a
  <-> exists k x, nth_error reference k = Some x
                  /\ equalityFunc a x (Z.of_nat k) reference = true.
Proof.
  unfold ManualSort.index_of, ManualSort.findIndex.
  destruct (findIndex_from_found
              (fun x index array => equalityFunc a x index array)
              reference reference 0 ltac:(lia))
    as [[Hr Hall] | (k & x & Hr & Hn & Hx & _)].
  - rewrite Hr. split; [lia|]. intros (k & x & Hn & Hx).
    specialize (Hall k x Hn). cbn in Hall. congruence.
  - split; [|rewrite Hr; lia]. intros _. exists k, x.
    rewrite Hr in Hx. split; [exact Hn | exact Hx].
Qed.

Lemma compare_cases {T U} (lt gt : T -> T -> bool) (reference : list U)
    (equalityFunc : T -> U -> Z -> list U -> bool) (a b : T) :
  let ia := ManualSort.index_of reference equalityFunc a in
  let ib := ManualSort.index_of reference equalityFunc b in
  ManualSort.getManualSortCompareFunction lt gt reference equalityFunc a b
  = if (0 <=? ia) && (0 <=? ib) then ia - ib
    else if (ia <? 0) && (ib <? 0)
         then if lt a b then -1 else if gt a b then 1 else 0
         else if ia <? 0 then 1 else -1.
Proof. reflexivity. Qed.

Lemma three_strings_nodup : NoDup [str "a"; str "b"; str "c"].
Proof.
  repeat constructor; simpl; intros H;
    repeat (destruct H as [H|H]; [discriminate H|]); exact H.
Qed.

(** The only arrangement of [a], [b], [c] that is in the order of the
    comparator for the reference list [b], [a]. *)
Lemma ordered_three_strings (l : list jsstring) :
  Permutation l [str "a"; str "b"; str "c"] ->
  ManualSort.ordered (ManualSort.string_compare [str "b"; str "a"]) l ->
  l = [str "b"; str "a"; str "c"].
Proof.
  intros Hperm Hord.
  pose proof (Permutation_length Hperm) as Hlen.
  destruct l as [|x [|y [|z [|w l]]]]; try discriminate Hlen.
  pose proof (Permutation_NoDup (Permutation_sym Hperm) three_strings_nodup)
    as Hnd.
  assert (Hx : In x [str "a"; str "b"; str "c"])
    by (apply (Permutation_in _ Hperm); simpl; auto).
  assert (Hy : In y [str "a"; str "b"; str "c"])
    by (apply (Permutation_in _ Hperm); simpl; auto).
  assert (Hz : In z [str "a"; str "b"; str "c"])
    by (apply (Permutation_in _ Hperm); simpl; auto).
  destruct Hord as [Hx_le [Hy_le _]].
  pose proof (Forall_inv Hx_le) as Hxy.
  pose proof (Forall_inv (Forall_inv_tail Hx_le)) as Hxz.
  pose proof (Forall_inv Hy_le) as Hyz.
  assert (Hxy' : x <> y)
    by (inversion Hnd as [|? ? Hn _]; intros ->; apply Hn; simpl; auto).
  assert (Hxz' : x <> z)
    by (inversion Hnd as [|? ? Hn _]; intros ->; apply Hn; simpl; auto).
  assert (Hyz' : y <> z).
  { inversion Hnd as [|? ? _ Hnd']. inversion Hnd' as [|? ? Hn _].
    intros ->. apply Hn. simpl. auto. }
  clear Hperm Hlen Hnd Hx_le Hy_le.
  simpl in Hx, Hy, Hz.
  destruct Hx as [<-|[<-|[<-|[]]]]; destruct Hy as [<-|[<-|[<-|[]]]];
    try congruence;
    destruct Hz as [<-|[<-|[<-|[]]]]; try congruence;
    try reflexivity; exfalso;
    first [ apply Hxy; reflexivity | apply Hxz; reflexivity
          | apply Hyz; reflexivity ].
Qed.

(** C8: the comparator orders two candidates that are both found in the
    reference list by their indices there, the lower first; compares two
    candidates that are both not found with [<] and [>]; and puts a found
    candidate before one that is not found, whatever their values.  With the
    reference list [b], [a] and equality as the test, sorting [a], [b], [c]
    gives [b], [a], [c], and that is the only arrangement in the order of
    the comparator. *)
Theorem manual_sort_compare {T U} (lt gt : T -> T -> bool)
    (reference : list U) (equalityFunc : T -> U -> Z -> list U -> bool)
    (a b : T) :
  let compare :=
    ManualSort.getManualSortCompareFunction lt gt reference equalityFunc in
  let ia := ManualSort.index_of reference equalityFunc a in
  let ib := ManualSort.index_of reference equalityFunc b in
  (0 <= ia -> 0 <= ib ->
     compare a b = ia - ib /\ (compare a b < 0 <-> ia < ib))
  /\ (ia < 0 -> ib < 0 ->
      compare a b = if lt a b then -1 else if gt a b then 1 else 0)
  /\ (0 <= ia -> ib < 0 -> compare a b = -1 /\ compare b a = 1)
  /\ ManualSort.sort (ManualSort.string_compare [str "b"; str "a"])
       [str "a"; str "b"; str "c"] = [str "b"; str "a"; str "c"]
  /\ (forall l,
        Permutation l [str "a"; str "b"; str "c"] ->
        ManualSort.ordered (ManualSort.string_compare [str "b"; str "a"]) l ->
        l = [str "b"; str "a"; str "c"]).
Proof.
  intros compare ia ib. repeat apply conj.
  - intros Ha Hb. unfold compare. rewrite compare_cases. fold ia ib.
    apply Z.leb_le in Ha as Ha', Hb as Hb'. rewrite Ha', Hb'. cbn [andb].
    split; [reflexivity | lia].
  - intros Ha Hb. unfold compare. rewrite compare_cases. fold ia ib.
    replace (0 <=? ia) with false by (symmetry; apply Z.leb_gt; lia).
    apply Z.ltb_lt in Ha as Ha', Hb as Hb'. rewrite Ha', Hb'. reflexivity.
  - intros Ha Hb. unfold compare. rewrite !compare_cases. fold ia ib.
    apply Z.leb_le in Ha as Ha'. apply Z.ltb_lt in Hb as Hb'.
    replace (0 <=? ib) with false by (symmetry; apply Z.leb_gt; lia).
    replace (ia <? 0) with false by (symmetry; apply Z.ltb_ge; lia).
    rewrite Ha', Hb'. cbn [andb]. split; reflexivity.
  - reflexivity.
  - apply ordered_three_strings.
Qed.

Lemma manual_sort_compare_witness :
  (0 <= ManualSort.index_of [str "b"; str "a"]
          (fun a x (_ : Z) (_ : list jsstring) => string_eqb a x) (str "a")
   /\ ManualSort.index_of [str "b"; str "a"]
        (fun a x (_ : Z) (_ : list jsstring) => string_eqb a x) (str "0") < 0
   /\ ManualSort.string_compare [str "b"; str "a"] (str "a") (str "0") = -1
   /\ ManualSort.string_compare [str "b"; str "a"] (str "0") (str "a") = 1)
  /\ (0 <= ManualSort.index_of [str "b"; str "a"]
             (fun a x (_ : Z) (_ : list jsstring) => string_eqb a x) (str "b")
      /\ ManualSort.string_compare [str "b"; str "a"] (str "b") (str "a") < 0)
  /\ (ManualSort.index_of [str "b"; str "a"]
        (fun a x (_ : Z) (_ : list jsstring) => string_eqb a x) (str "d") < 0
      /\ ManualSort.string_compare [str "b"; str "a"] (str "d") (str "0") = 1).
Proof.
  split; [|split].
  - split; [cbn; lia|]. split; [reflexivity|].
    apply (proj1 (proj2 (proj2 (manual_sort_compare string_ltb
             (fun a b => string_ltb b a) [str "b"; str "a"]
             (fun a x _ _ => string_eqb a x) (str "a") (str "0"))))).
    + cbn. lia.
    + reflexivity.
  - split; [cbn; lia|].
    apply (proj2 (proj1 (manual_sort_compare string_ltb
             (fun a b => string_ltb b a) [str "b"; str "a"]
             (fun a x _ _ => string_eqb a x) (str "b") (str "a"))
             ltac:(cbn; lia) ltac:(cbn; lia))).
    cbn. lia.
  - split; [reflexivity|].
    apply (proj1 (proj2 (manual_sort_compare string_ltb
             (fun a b => string_ltb b a) [str "b"; str "a"]
             (fun a x _ _ => string_eqb a x) (str "d") (str "0")))).
    + reflexivity.
    + reflexivity.
Defined.

(** The comparator on the strings of the example. *)
Example string_compare_values :
  let compare := ManualSort.string_compare [str "b"; str "a"] in
  compare (str "b") (str "a") = -1
  /\ compare (str "a") (str "b") = 1
  /\ compare (str "a") (str "c") = -1
  /\ compare (str "c") (str "a") = 1
  /\ compare (str "c") (str "d") = -1
  /\ compare (str "d") (str "c") = 1
  /\ compare (str "c") (str "c") = 0.
Proof. repeat split. Qed.

(** * Further properties of the helpers *)

(** ** The escaper's token *)

Lemma count_quote_duplicated (s : jsstring) :
  count_occ N.eq_dec (duplicate_quotes s) quote
  = (2 * count_occ N.eq_dec s quote)%nat.
Proof.
  induction s as [|c s IH]; [reflexivity|].
  change (duplicate_quotes (c :: s))
    with ((if char_eqb c quote then [quote; quote] else [c])
          ++ duplicate_quotes s).
  rewrite count_occ_app. change (@count_occ char) with (@count_occ N).
  rewrite IH.
  destruct (char_eqb c quote) eqn:Hq.
  - apply char_eqb_eq in Hq. subst c.
    cbn [count_occ]. destruct (N.eq_dec quote quote); [lia|congruence].
  - cbn [count_occ].
    destruct (N.eq_dec c quote) as [->|Hne].
    + rewrite char_eqb_refl in Hq. discriminate.
    + lia.
Qed.

Lemma duplicated_quotes_doubled (s : jsstring) :
  Token.quotes_doubled (duplicate_quotes s) = true.
Proof.
  induction s as [|c s IH]; [reflexivity|].
  change (duplicate_quotes (c :: s))
    with ((if char_eqb c quote then [quote; quote] else [c])
          ++ duplicate_quotes s).
  destruct (char_eqb c quote) eqn:Hq; cbn [app Token.quotes_doubled].
  - rewrite !char_eqb_refl. exact IH.
  - rewrite Hq. exact IH.
Qed.

(** The token always sits between two double quotes, and every double
    quote between these two is doubled: read from the left, each is followed
    at once by its twin.  So the token holds an even number of double
    quotes. *)
Theorem windowsCmdExeEscapeArg_quotes_paired (arg : jsstring) :
  startsWith (windowsCmdExeEscapeArg arg) [quote] = true
  /\ endsWith (windowsCmdExeEscapeArg arg) [quote] = true
  /\ 2 <= length (windowsCmdExeEscapeArg arg)
  /\ Token.quotes_doubled (Token.inside (windowsCmdExeEscapeArg arg)) = true
  /\ Nat.even (count_occ N.eq_dec (windowsCmdExeEscapeArg arg) quote) = true.
Proof.
  rewrite escape_as_steps. unfold four_steps, wrap_in_quotes.
  set (body := duplicate_quotes (caret_prefix (strip_outer_pair arg))).
  repeat apply conj.
  - reflexivity.
  - rewrite endsWith_one by discriminate.
    change (quote :: body ++ [quote]) with ((quote :: body) ++ [quote]).
    rewrite last_last. apply char_eqb_refl.
  - unfold length. cbn [List.length]. rewrite length_app. cbn. lia.
  - unfold Token.inside. cbn [tl]. rewrite removelast_last.
    apply duplicated_quotes_doubled.
  - change (quote :: body ++ [quote]) with ([quote] ++ body ++ [quote]).
    rewrite !count_occ_app. change (@count_occ char) with (@count_occ N).
    unfold body. rewrite count_quote_duplicated.
    cbn [count_occ]. destruct (N.eq_dec quote quote); [|congruence].
    replace (1 + (2 * count_occ N.eq_dec (caret_prefix (strip_outer_pair arg)) quote + 1))%nat
      with (2 * (count_occ N.eq_dec (caret_prefix (strip_outer_pair arg)) quote + 1))%nat
      by lia.
    rewrite Nat.even_mul. reflexivity.
Qed.

(** The token of an argument with quotes and metacharacters. *)
Example windowsCmdExeEscapeArg_token :
  windowsCmdExeEscapeArg (str "a" ++ [quote] ++ str "b&c" ++ [quote])
  = [quote] ++ str "a" ++ [quote; quote] ++ str "b^&c" ++ [quote; quote]
    ++ [quote].
Proof. reflexivity. Qed.

Lemma wrapped_is_wrapped (s : jsstring) :
  is_wrapped (quote :: s ++ [quote]) = true
  /\ strip_outer_pair (quote :: s ++ [quote]) = s.
Proof.
  assert (Hw : is_wrapped (quote :: s ++ [quote]) = true).
  { unfold is_wrapped.
    destruct (s ++ [quote]) as [|d r] eqn:Hs.
    - apply app_eq_nil in Hs as [_ Hs]. discriminate.
    - rewrite <- Hs, last_last, !char_eqb_refl. reflexivity. }
  split; [exact Hw|].
  unfold strip_outer_pair. rewrite Hw. cbn [tl]. apply removelast_last.
Qed.

(** An argument that already sits between double quotes is not wrapped a
    second time: it gets the token of the text between its quotes, which is
    the token of that text itself unless the text is again quoted. *)
Theorem windowsCmdExeEscapeArg_of_quoted (s : jsstring) :
  windowsCmdExeEscapeArg (quote :: s ++ [quote])
  = quote :: duplicate_quotes (caret_prefix s) ++ [quote]
  /\ (is_wrapped s = false ->
      windowsCmdExeEscapeArg (quote :: s ++ [quote]) = windowsCmdExeEscapeArg s).
Proof.
  destruct (wrapped_is_wrapped s) as [_ Hstrip].
  assert (H : windowsCmdExeEscapeArg (quote :: s ++ [quote])
              = quote :: duplicate_quotes (caret_prefix s) ++ [quote]).
  { rewrite escape_as_steps. unfold four_steps, wrap_in_quotes.
    rewrite Hstrip. reflexivity. }
  split; [exact H|].
  intros Hs. rewrite H, (escape_as_steps s).
  unfold four_steps, wrap_in_quotes, strip_outer_pair. rewrite Hs. reflexivity.
Qed.

Lemma windowsCmdExeEscapeArg_of_quoted_witness :
  is_wrapped (str "a b") = false
  /\ windowsCmdExeEscapeArg (quote :: str "a b" ++ [quote])
     = windowsCmdExeEscapeArg (str "a b").
Proof.
  split; [reflexivity|].
  apply (proj2 (windowsCmdExeEscapeArg_of_quoted (str "a b"))). reflexivity.
Defined.

Lemma plain_flat_map (f : char -> jsstring) (s : jsstring) :
  Forall (fun c => f c = [c]) s -> flat_map f s = s.
Proof.
  induction 1 as [|c s Hc _ IH]; [reflexivity|].
  cbn [flat_map]. rewrite Hc, IH. reflexivity.
Qed.

(** An argument without double quotes and without any of the characters
    ( ) % ! ^ < > & | is only put between double quotes. *)
Theorem windowsCmdExeEscapeArg_plain (arg : jsstring) :
  forallb (fun c => negb (in_class metachars c) && negb (char_eqb c quote)) arg
  = true ->
  windowsCmdExeEscapeArg arg = quote :: arg ++ [quote].
Proof.
  intros Hplain. rewrite forallb_forall in Hplain.
  assert (Hall : Forall (fun c => in_class metachars c = false
                                  /\ char_eqb c quote = false) arg).
  { apply Forall_forall. intros c Hc. specialize (Hplain c Hc).
    apply andb_true_iff in Hplain as [H1 H2].
    split; now apply negb_true_iff. }
  assert (Hw : is_wrapped arg = false).
  { destruct arg as [|c [|d r]]; try reflexivity.
    apply Forall_inv in Hall as [_ Hq]. unfold is_wrapped. now rewrite Hq. }
  rewrite escape_as_steps.
  unfold four_steps, wrap_in_quotes, strip_outer_pair. rewrite Hw.
  unfold caret_prefix, duplicate_quotes.
  rewrite (plain_flat_map _ arg).
  - rewrite (plain_flat_map _ arg); [reflexivity|].
    eapply Forall_impl; [|exact Hall]. intros c [_ ->]. reflexivity.
  - eapply Forall_impl; [|exact Hall]. intros c [-> _]. reflexivity.
Qed.

Lemma windowsCmdExeEscapeArg_plain_witness :
  windowsCmdExeEscapeArg (str "--name=my device")
  = quote :: str "--name=my device" ++ [quote].
Proof.
  apply (windowsCmdExeEscapeArg_plain (str "--name=my device")). reflexivity.
Defined.

(** ** Escaping an argument list *)

(** Without detection ([detectShell] false or left out) the host alone
    decides: cmd.exe escaping exactly on [win32], whatever [SHELL] and
    [ComSpec] hold. *)
Theorem shellEscape_native_dialect
    (shellEscapeFunc : list jsstring -> jsstring) (e : env)
    (args : list jsstring) :
  Shell.shellEscape shellEscapeFunc e args None
  = Shell.shellEscape shellEscapeFunc e args (Some false)
  /\ (platform e = str "win32" ->
      Shell.shellEscape shellEscapeFunc e args None
      = map windowsCmdExeEscapeArg args)
  /\ (platform e <> str "win32" ->
      Shell.shellEscape shellEscapeFunc e args None
      = map (fun v => shellEscapeFunc [v]) args).
Proof.
  unfold Shell.shellEscape, Shell.isCmdExe. cbn [default].
  repeat apply conj.
  - reflexivity.
  - intros ->. reflexivity.
  - intros Hp.
    destruct (string_eqb (platform e) (str "win32")) eqn:Heq; [|reflexivity].
    apply string_eqb_eq in Heq. contradiction.
Qed.

Lemma shellEscape_native_dialect_witness :
  (platform {| SHELL := Some (str "/bin/bash"); ComSpec := None; DEBUG := None;
               HTTPS_PROXY := None; HTTP_PROXY := None;
               platform := str "win32" |} = str "win32"
   /\ Shell.shellEscape single_quoted
        {| SHELL := Some (str "/bin/bash"); ComSpec := None; DEBUG := None;
           HTTPS_PROXY := None; HTTP_PROXY := None; platform := str "win32" |}
        [str "a&b"] None = [quote :: str "a^&b" ++ [quote]])
  /\ (platform {| SHELL := None; ComSpec := Some (str "cmd.exe"); DEBUG := None;
                  HTTPS_PROXY := None; HTTP_PROXY := None;
                  platform := str "darwin" |} <> str "win32"
      /\ Shell.shellEscape single_quoted
           {| SHELL := None; ComSpec := Some (str "cmd.exe"); DEBUG := None;
              HTTPS_PROXY := None; HTTP_PROXY := None;
              platform := str "darwin" |}
           [str "a&b"] None = [str "'a&b'"]).
Proof.
  split; split.
  - reflexivity.
  - apply (proj1 (proj2 (shellEscape_native_dialect single_quoted
             {| SHELL := Some (str "/bin/bash"); ComSpec := None; DEBUG := None;
                HTTPS_PROXY := None; HTTP_PROXY := None;
                platform := str "win32" |} [str "a&b"]))).
    reflexivity.
  - discriminate.
  - apply (proj2 (proj2 (shellEscape_native_dialect single_quoted
             {| SHELL := None; ComSpec := Some (str "cmd.exe"); DEBUG := None;
                HTTPS_PROXY := None; HTTP_PROXY := None;
                platform := str "darwin" |} [str "a&b"]))).
    discriminate.
Defined.

(** Every argument is escaped on its own: the result has one token per
    argument, in the same order, and the token of an argument does not
    depend on the arguments around it. *)
Theorem shellEscape_argumentwise
    (shellEscapeFunc : list jsstring -> jsstring) (e : env)
    (args more : list jsstring) (detectShell : option bool) :
  List.length (Shell.shellEscape shellEscapeFunc e args detectShell)
  = List.length args
  /\ Shell.shellEscape shellEscapeFunc e (args ++ more) detectShell
     = Shell.shellEscape shellEscapeFunc e args detectShell
       ++ Shell.shellEscape shellEscapeFunc e more detectShell.
Proof.
  unfold Shell.shellEscape.
  destruct (Shell.isCmdExe e (default false detectShell));
    rewrite length_map, map_app; split; reflexivity.
Qed.

(** ** More on retrying *)

Lemma geometric_sum (d b : Z) (i k : nat) :
  (b - 1) * fold_right Z.add 0
              (map (fun j => d * b ^ Z.of_nat j) (seq i k))
  = d * (b ^ Z.of_nat (i + k) - b ^ Z.of_nat i).
Proof.
  revert i. induction k as [|k IH]; intros i.
  - rewrite Nat.add_0_r. cbn. ring.
  - cbn [seq map fold_right]. rewrite Z.mul_add_distr_l, IH.
    replace (Datatypes.S i + k)%nat with (i + Datatypes.S k)%nat by lia.
    replace (Z.of_nat (Datatypes.S i)) with (Z.succ (Z.of_nat i)) by lia.
    rewrite Z.pow_succ_r by lia. ring.
Qed.

Lemma logs_failed_rounds (A : Retry.arithmetic) {T E : Type} (times : Z)
    (label : jsstring) (d b : Retry.number A) (i : nat) (errs : list E) :
  List.length
    (Retry.logs (Retry.failed_rounds A (T := T) times label d b i errs))
  = List.length errs.
Proof.
  revert i. induction errs as [|err errs IH]; intros i; [reflexivity|].
  cbn [Retry.failed_rounds Retry.failed_round app Retry.logs filter List.length].
  f_equal. apply IH.
Qed.

(** However often [retry] is asked to try, every wait has its log line,
    there is one call more than there are waits, and there are at most
    [max 0 (times - 1)] waits.  In an arithmetic that is exact on integers,
    and as long as the delay [d], the multiplier [b] and the products are
    integers a double holds exactly, the waits are the integers [d * b ^ i]
    and add up to a geometric sum: [b - 1] times the total is
    [d * (b ^ k - 1)] for [k] waits. *)
Theorem retry_total_wait (A : Retry.arithmetic) {T E S : Type}
    (func : S -> outcome T E * S) (times : Z) (label : jsstring)
    (startingDelayMs backoffScaler : option (Retry.number A)) (s : S) :
  let d := default (Retry.literal A 1000) startingDelayMs in
  let b := default (Retry.literal A 2) backoffScaler in
  let tr := fst (fst (Retry.retry A func times label startingDelayMs
                        backoffScaler s)) in
  let k := List.length (Retry.delays tr) in
  List.length (Retry.logs tr) = k
  /\ List.length (Retry.calls tr) = Datatypes.S k
  /\ Z.of_nat k <= Z.max 0 (times - 1)
  /\ (forall dz bz,
        Retry.exact_on_integers A ->
        d = Retry.literal A dz -> b = Retry.literal A bz ->
        Retry.safe dz -> Retry.safe bz ->
        (forall i, (i < k)%nat ->
           Retry.safe (Z.of_nat i) /\ Retry.safe (bz ^ Z.of_nat i)
           /\ Retry.safe (dz * bz ^ Z.of_nat i)) ->
        exists waits : list Z,
          Retry.delays tr = map (Retry.literal A) waits
          /\ waits = map (fun i => dz * bz ^ Z.of_nat i) (seq 0 k)
          /\ (bz - 1) * fold_right Z.add 0 waits
             = dz * (bz ^ Z.of_nat k - 1)).
Proof.
  intros d b tr k.
  destruct (retry_loop_shape A func times label d b (Z.to_nat (times - 1)) 0 s)
    as (errs & r & Htr & _ & _ & Hlen & _).
  change (fst (fst (Retry.retry_loop A func times label d b
                      (Z.to_nat (times - 1)) (Z.of_nat 0) s))) with tr in Htr.
  assert (Hdelays : Retry.delays tr
                    = map (fun i => Retry.mul A
                                      (Retry.pow A b (Retry.literal A (Z.of_nat i)))
                                      d) (seq 0 (List.length errs))).
  { rewrite Htr. unfold Retry.delays. rewrite flat_map_app.
    fold (Retry.delays (Retry.failed_rounds A (T := T) times label d b 0 errs)).
    rewrite delays_failed_rounds. cbn. apply app_nil_r. }
  assert (Hk : k = List.length errs).
  { unfold k. rewrite Hdelays, length_map, length_seq. reflexivity. }
  repeat apply conj.
  - rewrite Hk, Htr. unfold Retry.logs. rewrite filter_app, length_app.
    fold (Retry.logs (Retry.failed_rounds A (T := T) times label d b 0 errs)).
    rewrite logs_failed_rounds. cbn. lia.
  - rewrite Hk, Htr. unfold Retry.calls. rewrite flat_map_app, length_app.
    fold (Retry.calls (Retry.failed_rounds A (T := T) times label d b 0 errs)).
    rewrite calls_failed_rounds, length_map. cbn. lia.
  - rewrite Hk. lia.
  - intros dz bz Hexact Hd Hb Hsd Hsb Hsafe.
    exists (map (fun i => dz * bz ^ Z.of_nat i) (seq 0 k)).
    repeat split.
    + rewrite Hdelays, Hd, Hb, <- Hk, map_map.
      apply exact_delays; assumption.
    + rewrite geometric_sum. cbn [Nat.add Z.of_nat Z.pow]. reflexivity.
Qed.

Lemma retry_total_wait_witness :
  exists waits : list Z,
    Retry.delays (fst (fst (Retry.retry Retry.integers (fails_first 2) 3
                              (str "op") None None 0%nat)))
    = map (Retry.literal Retry.integers) waits
    /\ waits
       = map (fun i => 1000 * 2 ^ Z.of_nat i)
           (seq 0 (List.length
                     (Retry.delays
                        (fst (fst (Retry.retry Retry.integers (fails_first 2) 3
                                     (str "op") None None 0%nat))))))
    /\ (2 - 1) * fold_right Z.add 0 waits
       = 1000 * (2 ^ Z.of_nat
                   (List.length
                      (Retry.delays
                         (fst (fst (Retry.retry Retry.integers (fails_first 2)
                                      3 (str "op") None None 0%nat))))) - 1).
Proof.
  apply (proj2 (proj2 (proj2 (retry_total_wait Retry.integers (fails_first 2) 3
                                (str "op") None None 0%nat)))
           1000 2 integers_exact eq_refl eq_refl);
    try (apply safe_small; lia).
  intros i Hi.
  assert (Hi' : (i < 2)%nat) by exact Hi.
  assert (Hcase : i = 0%nat \/ i = 1%nat) by lia.
  destruct Hcase as [-> | ->]; repeat split; apply safe_small; cbn; lia.
Defined.

(** When the first call succeeds, [retry] is that one call, whatever
    [times], the delay and the multiplier are. *)
Theorem retry_first_call_succeeds (A : Retry.arithmetic) {T E S : Type}
    (func : S -> outcome T E * S) (times : Z) (label : jsstring)
    (startingDelayMs backoffScaler : option (Retry.number A)) (s s1 : S)
    (v : T) :
  func s = (Returned v, s1) ->
  Retry.retry A func times label startingDelayMs backoffScaler s
  = ([Retry.Called (Returned v)], Returned v, s1).
Proof.
  intros Hf. unfold Retry.retry, Retry.retry_with.
  destruct (Z.to_nat (times - 1)); cbn [Retry.retry_loop];
    unfold Retry.final_call; rewrite Hf; reflexivity.
Qed.

Lemma retry_first_call_succeeds_witness :
  fails_first 0 7%nat = (Returned 42, 8%nat)
  /\ Retry.retry Retry.integers (fails_first 0) 5 (str "op") None None 7%nat
     = ([Retry.Called (Returned 42)], Returned 42, 8%nat).
Proof.
  split; [reflexivity|].
  apply (retry_first_call_succeeds Retry.integers (fails_first 0) 5 (str "op")
           None None 7%nat 8%nat 42).
  reflexivity.
Defined.




(** ** More on locating and spawning *)

(** When a missing program is fatal ([rejectOnMissing] true or left out),
    [which] returns exactly the paths the lookup returns: it never makes up
    a path, the empty one included. *)
Theorem which_returns_lookup_path
    (whichMod : jsstring -> outcome jsstring Spawn.lookup_error)
    (program : jsstring) (rejectOnMissing : option bool) (p : jsstring) :
  default true rejectOnMissing = true ->
  (Spawn.which whichMod program rejectOnMissing = Returned p
   <-> whichMod program = Returned p).
Proof.
  intros Hflag. unfold Spawn.which. rewrite Hflag.
  destruct (whichMod program) as [path|err].
  - split; intros H; injection H as ->; reflexivity.
  - destruct (Spawn.is_ENOENT err); split; intros H; discriminate H.
Qed.

Lemma which_returns_lookup_path_witness :
  default true (@None bool) = true
  /\ (Spawn.which finds_ssh (str "ssh") None = Returned (str "/usr/bin/ssh")
      <-> finds_ssh (str "ssh") = Returned (str "/usr/bin/ssh")).
Proof.
  split; [reflexivity|].
  apply (which_returns_lookup_path finds_ssh (str "ssh") None
           (str "/usr/bin/ssh")).
  reflexivity.
Defined.

(** When the program is not located, [whichSpawn] starts no child and
    writes nothing: its result is the error of [which] in fatal mode,
    whatever [spawn] would do, whatever the environment and the policy. *)
Theorem whichSpawn_program_not_located {Options : Type}
    (whichMod : jsstring -> outcome jsstring Spawn.lookup_error)
    (spawn : jsstring -> list jsstring -> Options -> Spawn.spawn_end)
    (e : env) (programName : jsstring) (args : list jsstring)
    (options : Options) (policy : option bool) (err : Spawn.lookup_error) :
  whichMod programName = Threw err ->
  Spawn.whichSpawn whichMod spawn e programName args options policy
  = ([], Threw (if Spawn.is_ENOENT err
                then Spawn.ExpectedError
                       (str "'" ++ programName
                        ++ str "' program not found. Is it installed?")
                else Spawn.LookupError err)).
Proof.
  intros Hw. unfold Spawn.whichSpawn, Spawn.which. rewrite Hw. cbn [default].
  destruct (Spawn.is_ENOENT err); reflexivity.
Qed.

Lemma whichSpawn_program_not_located_witness :
  finds_ssh (str "scp")
  = Threw {| Spawn.code := Some (str "ENOENT");
             Spawn.text := str "not found: scp" |}
  /\ Spawn.whichSpawn finds_ssh child
       {| SHELL := None; ComSpec := None; DEBUG := Some (str "1");
          HTTPS_PROXY := None; HTTP_PROXY := None; platform := str "linux" |}
       (str "scp") [str "ok"] tt (Some true)
     = ([], Threw (Spawn.ExpectedError
                     (str "'scp' program not found. Is it installed?"))).
Proof.
  split; [reflexivity|].
  apply (whichSpawn_program_not_located finds_ssh child _ (str "scp")
           [str "ok"] tt (Some true)
           {| Spawn.code := Some (str "ENOENT");
              Spawn.text := str "not found: scp" |}).
  reflexivity.
Defined.

(** The debug flag only adds one line to the error stream, with the
    resolved path and the arguments; it never changes the outcome. *)
Theorem whichSpawn_debug_only_prints {Options : Type}
    (whichMod : jsstring -> outcome jsstring Spawn.lookup_error)
    (spawn : jsstring -> list jsstring -> Options -> Spawn.spawn_end)
    (e e' : env) (programName program : jsstring) (args : list jsstring)
    (options : Options) (policy : option bool) :
  whichMod programName = Returned program ->
  snd (Spawn.whichSpawn whichMod spawn e programName args options policy)
  = snd (Spawn.whichSpawn whichMod spawn e' programName args options policy)
  /\ (truthy_opt (DEBUG e) = false ->
      fst (Spawn.whichSpawn whichMod spawn e programName args options policy)
      = [])
  /\ (truthy_opt (DEBUG e) = true ->
      exists line,
        fst (Spawn.whichSpawn whichMod spawn e programName args options policy)
        = [line]
        /\ Spawn.occurs_in program line
        /\ Forall (fun a => Spawn.occurs_in a line) args).
Proof.
  intros Hw. unfold Spawn.whichSpawn, Spawn.which. rewrite Hw.
  destruct (spawn program args options) as [errText | c sg]; cbn [orb].
  - repeat apply conj.
    + reflexivity.
    + intros ->. reflexivity.
    + intros ->. eexists. split; [reflexivity|]. split.
      * auto 10 with occurs.
      * apply Forall_forall. intros a Ha.
        apply occurs_in_trans with (join (str ", ") args);
          [apply occurs_in_join, Ha | auto 10 with occurs].
  - destruct (negb (default false policy)
              && (Spawn.code_truthy c || Spawn.signal_truthy sg));
      repeat apply conj; try reflexivity; try (intros ->; reflexivity);
      intros ->; (eexists; split; [reflexivity|]; split;
        [ auto 10 with occurs
        | apply Forall_forall; intros a Ha;
          apply occurs_in_trans with (join (str ", ") args);
          [apply occurs_in_join, Ha | auto 10 with occurs] ]).
Qed.

Lemma whichSpawn_debug_only_prints_witness :
  finds_ssh (str "ssh") = Returned (str "/usr/bin/ssh")
  /\ snd (Spawn.whichSpawn finds_ssh child
            {| SHELL := None; ComSpec := None; DEBUG := Some (str "1");
               HTTPS_PROXY := None; HTTP_PROXY := None;
               platform := str "linux" |}
            (str "ssh") [str "fail"] tt None)
     = snd (Spawn.whichSpawn finds_ssh child (bare_env (str "linux"))
              (str "ssh") [str "fail"] tt None)
  /\ fst (Spawn.whichSpawn finds_ssh child (bare_env (str "linux"))
            (str "ssh") [str "fail"] tt None) = [].
Proof.
  split; [reflexivity|]. split.
  - apply (proj1 (whichSpawn_debug_only_prints finds_ssh child
             {| SHELL := None; ComSpec := None; DEBUG := Some (str "1");
                HTTPS_PROXY := None; HTTP_PROXY := None;
                platform := str "linux" |}
             (bare_env (str "linux")) (str "ssh") (str "/usr/bin/ssh")
             [str "fail"] tt None eq_refl)).
  - apply (proj1 (proj2 (whichSpawn_debug_only_prints finds_ssh child
             (bare_env (str "linux")) (bare_env (str "linux")) (str "ssh")
             (str "/usr/bin/ssh") [str "fail"] tt None eq_refl))).
    reflexivity.
Defined.

(** When exit code and signal are asked for, a child that closes is never
    an error, whatever its exit code or signal; under the default policy a
    result is returned only for a child without signal whose exit code is
    0 or absent. *)
Theorem whichSpawn_policy {Options : Type}
    (whichMod : jsstring -> outcome jsstring Spawn.lookup_error)
    (spawn : jsstring -> list jsstring -> Options -> Spawn.spawn_end)
    (e : env) (programName program : jsstring) (args : list jsstring)
    (options : Options) :
  whichMod programName = Returned program ->
  (forall c sg,
     spawn program args options = Spawn.CloseEvent c sg ->
     snd (Spawn.whichSpawn whichMod spawn e programName args options (Some true))
     = Returned (c, sg))
  /\ (forall policy c sg,
        default false policy = false ->
        snd (Spawn.whichSpawn whichMod spawn e programName args options policy)
        = Returned (c, sg) ->
        spawn program args options = Spawn.CloseEvent c sg
        /\ Spawn.code_truthy c = false /\ Spawn.signal_truthy sg = false).
Proof.
  intros Hw. split.
  - intros c sg Hs.
    rewrite (whichSpawn_closed whichMod spawn e programName program args
               options Hw c sg (Some true) Hs).
    reflexivity.
  - intros policy c sg Hp Hret.
    destruct (spawn program args options) as [errText | c' sg'] eqn:Hs.
    + rewrite (whichSpawn_error whichMod spawn e programName program args
                 options Hw errText policy Hs) in Hret.
      discriminate Hret.
    + rewrite (whichSpawn_closed whichMod spawn e programName program args
                 options Hw c' sg' policy Hs) in Hret.
      rewrite Hp in Hret. cbn [negb andb] in Hret.
      destruct (Spawn.code_truthy c' || Spawn.signal_truthy sg') eqn:Ht;
        [discriminate Hret|].
      injection Hret as <- <-.
      apply orb_false_iff in Ht as [Hc Hsg]. repeat split; assumption.
Qed.

Lemma whichSpawn_policy_witness :
  finds_ssh (str "ssh") = Returned (str "/usr/bin/ssh")
  /\ snd (Spawn.whichSpawn finds_ssh child (bare_env (str "linux"))
            (str "ssh") [str "fail"] tt (Some true))
     = Returned (Spawn.Val 2, Spawn.Null)
  /\ (child (str "/usr/bin/ssh") [str "ok"] tt
      = Spawn.CloseEvent (Spawn.Val 0) Spawn.Null
      /\ Spawn.code_truthy (Spawn.Val 0) = false
      /\ Spawn.signal_truthy Spawn.Null = false).
Proof.
  split; [reflexivity|]. split.
  - apply (proj1 (whichSpawn_policy finds_ssh child (bare_env (str "linux"))
             (str "ssh") (str "/usr/bin/ssh") [str "fail"] tt eq_refl)
             (Spawn.Val 2) Spawn.Null).
    reflexivity.
  - apply (proj2 (whichSpawn_policy finds_ssh child (bare_env (str "linux"))
             (str "ssh") (str "/usr/bin/ssh") [str "ok"] tt eq_refl)
             None (Spawn.Val 0) Spawn.Null).
    + reflexivity.
    + reflexivity.
Defined.

(** ** More on the proxy configuration *)

(** Without a tunnel configuration and with both proxy variables unset or
    empty there is no proxy configuration, and the [URL] constructor is not
    needed; with a URL that parses, [username] and [password] are always
    present, and [proxyAuth] is left out exactly when one of them is
    empty. *)
Theorem getProxyConfig_from_environment {Exn : Type}
    (newURL : jsstring -> outcome Proxy.URL Exn) (e : env) :
  (truthy_opt (HTTPS_PROXY e) = false -> truthy_opt (HTTP_PROXY e) = false ->
   Proxy.getProxyConfig None newURL e = Returned None)
  /\ (forall proxyUrl url,
        or_else (HTTPS_PROXY e) (HTTP_PROXY e) = Some proxyUrl ->
        proxyUrl <> [] ->
        newURL proxyUrl = Returned url ->
        exists c,
          Proxy.getProxyConfig None newURL e = Returned (Some c)
          /\ Proxy.host c = Proxy.url_hostname url
          /\ Proxy.port c = Proxy.url_port url
          /\ Proxy.username c = Some (Proxy.url_username url)
          /\ Proxy.password c = Some (Proxy.url_password url)
          /\ (Proxy.proxyAuth c = None
              <-> Proxy.url_username url = [] \/ Proxy.url_password url = [])).
Proof.
  split.
  - intros H1 H2. unfold Proxy.getProxyConfig, or_else. rewrite H1.
    destruct (HTTP_PROXY e) as [[|c u]|]; try reflexivity. discriminate H2.
  - intros proxyUrl url Hurl Hne Hparse. unfold Proxy.getProxyConfig.
    rewrite Hurl. destruct proxyUrl as [|c0 rest]; [congruence|].
    cbn [truthy]. rewrite Hparse. eexists. split; [reflexivity|].
    cbn [Proxy.host Proxy.port Proxy.username Proxy.password Proxy.proxyAuth].
    repeat split; try reflexivity.
    + destruct (Proxy.url_username url), (Proxy.url_password url);
        cbn; intros H; try discriminate H; auto.
    + intros [-> | ->]; [reflexivity|].
      destruct (Proxy.url_username url); reflexivity.
Qed.

Lemma getProxyConfig_from_environment_witness :
  (truthy_opt (HTTPS_PROXY (proxy_env (Some []) None)) = false
   /\ truthy_opt (HTTP_PROXY (proxy_env (Some []) None)) = false
   /\ Proxy.getProxyConfig None two_urls (proxy_env (Some []) None)
      = Returned None)
  /\ exists c,
       Proxy.getProxyConfig None two_urls
         (proxy_env None (Some (str "http://plain:8080"))) = Returned (Some c)
       /\ Proxy.username c = Some []
       /\ Proxy.proxyAuth c = None.
Proof.
  split.
  - split; [reflexivity|]. split; [reflexivity|].
    apply (proj1 (getProxyConfig_from_environment two_urls
                    (proxy_env (Some []) None))); reflexivity.
  - destruct (proj2 (getProxyConfig_from_environment two_urls
                       (proxy_env None (Some (str "http://plain:8080"))))
                (str "http://plain:8080") _ eq_refl ltac:(discriminate) eq_refl)
      as (c & Hc & _ & _ & Hu & _ & Hauth).
    exists c. split; [exact Hc|]. split; [exact Hu|].
    apply Hauth. left. reflexivity.
Defined.

(** The two sources of a proxy configuration agree: the [proxyAuth] string
    built from a URL's non-empty user name and colon-free, non-empty
    password, handed over in a tunnel configuration, is taken apart into the
    same user name and password. *)
Theorem proxyAuth_round_trip {Exn : Type}
    (newURL : jsstring -> outcome Proxy.URL Exn) (e : env)
    (proxyUrl : jsstring) (url : Proxy.URL) :
  or_else (HTTPS_PROXY e) (HTTP_PROXY e) = Some proxyUrl ->
  proxyUrl <> [] ->
  newURL proxyUrl = Returned url ->
  Proxy.url_username url <> [] ->
  Proxy.url_password url <> [] ->
  ~ In Proxy.colon (Proxy.url_password url) ->
  exists c,
    Proxy.getProxyConfig None newURL e = Returned (Some c)
    /\ forall (cfg : Proxy.tunnel_config) (e' : env),
         Proxy.tunnel_proxyAuth cfg = Proxy.proxyAuth c ->
         exists c',
           Proxy.getProxyConfig (Some cfg) newURL e' = Returned (Some c')
           /\ Proxy.username c' = Proxy.username c
           /\ Proxy.password c' = Proxy.password c
           /\ Proxy.proxyAuth c' = Proxy.proxyAuth c.
Proof.
  intros Hurl Hne Hparse Hu Hp Hcolon.
  assert (Ht : truthy (Proxy.url_username url)
               && truthy (Proxy.url_password url) = true)
    by (destruct (Proxy.url_username url), (Proxy.url_password url);
        congruence || reflexivity).
  unfold Proxy.getProxyConfig at 1. rewrite Hurl.
  destruct proxyUrl as [|c0 rest]; [congruence|]. cbn [truthy].
  rewrite Hparse, Ht. eexists. split; [reflexivity|].
  cbn [Proxy.username Proxy.password Proxy.proxyAuth].
  intros cfg e' Hcfg.
  rewrite getProxyConfig_tunnel. eexists. split; [reflexivity|].
  cbn [Proxy.username Proxy.password Proxy.proxyAuth]. rewrite Hcfg.
  change (Proxy.url_username url ++ [Proxy.colon] ++ Proxy.url_password url)
    with (Proxy.url_username url ++ Proxy.colon :: Proxy.url_password url).
  rewrite split_auth_last_colon by exact Hcolon.
  destruct (Proxy.url_username url); [congruence|]. repeat split.
Qed.

Lemma proxyAuth_round_trip_witness :
  exists c,
    Proxy.getProxyConfig None two_urls
      (proxy_env (Some (str "https://u:p@secure:8443")) None)
    = Returned (Some c)
    /\ forall (cfg : Proxy.tunnel_config) (e' : env),
         Proxy.tunnel_proxyAuth cfg = Proxy.proxyAuth c ->
         exists c',
           Proxy.getProxyConfig (Some cfg) two_urls e' = Returned (Some c')
           /\ Proxy.username c' = Proxy.username c
           /\ Proxy.password c' = Proxy.password c
           /\ Proxy.proxyAuth c' = Proxy.proxyAuth c.
Proof.
  apply (proxyAuth_round_trip two_urls
           (proxy_env (Some (str "https://u:p@secure:8443")) None)
           (str "https://u:p@secure:8443")
           {| Proxy.url_hostname := str "secure"; Proxy.url_port := str "8443";
              Proxy.url_username := str "u"; Proxy.url_password := str "p" |}).
  - reflexivity.
  - discriminate.
  - reflexivity.
  - discriminate.
  - discriminate.
  - intros [H|[]]. discriminate H.
Defined.

(** ** More on the comparator *)

Section CompareFacts.

Context {T U : Type}.
Variables lt gt : T -> T -> bool.
Variable reference : list U.
Variable equalityFunc : T -> U -> Z -> list U -> bool.

Let compare := ManualSort.getManualSortCompareFunction lt gt reference equalityFunc.
Let index := ManualSort.index_of reference equalityFunc.

(** [>] is [<] with the sides swapped, [<] is never true both ways, and
    what is neither below nor above is interchangeable. *)
Hypothesis gt_is_flipped_lt : forall a b, gt a b = lt b a.
Hypothesis lt_asymmetric : forall a b, lt a b = true -> lt b a = false.
Hypothesis lt_splits :
  forall a b c, lt a c = true -> lt a b = true \/ lt b c = true.

Lemma compare_flip (a b : T) : compare b a = - compare a b.
Proof.
  unfold compare. rewrite !compare_cases. fold index.
  rewrite !gt_is_flipped_lt.
  destruct (Z.leb_spec 0 (index a)), (Z.leb_spec 0 (index b)),
    (Z.ltb_spec (index a) 0), (Z.ltb_spec (index b) 0);
    cbn [andb]; try lia.
  destruct (lt a b) eqn:Hab.
  - rewrite (lt_asymmetric a b Hab). reflexivity.
  - destruct (lt b a); reflexivity.
Qed.

Lemma compare_le_trans (a b c : T) :
  compare a b <= 0 -> compare b c <= 0 -> compare a c <= 0.
Proof.
  unfold compare. rewrite !compare_cases. fold index.
  rewrite !gt_is_flipped_lt.
  destruct (Z.leb_spec 0 (index a)), (Z.leb_spec 0 (index b)),
    (Z.leb_spec 0 (index c)), (Z.ltb_spec (index a) 0),
    (Z.ltb_spec (index b) 0), (Z.ltb_spec (index c) 0);
    cbn [andb]; try lia.
  intros Hab Hbc.
  destruct (lt a c) eqn:Hac; [lia|].
  destruct (lt c a) eqn:Hca; [|lia].
  exfalso. destruct (lt_splits c b a Hca) as [Hcb | Hba].
  - rewrite (lt_asymmetric c b Hcb), Hcb in Hbc. lia.
  - rewrite (lt_asymmetric b a Hba), Hba in Hab. lia.
Qed.

Lemma insert_permutation (a : T) (l : list T) :
  Permutation (ManualSort.insert compare a l) (a :: l).
Proof.
  induction l as [|b l IH]; [reflexivity|].
  cbn [ManualSort.insert]. destruct (compare a b <? 0); [reflexivity|].
  rewrite IH. apply perm_swap.
Qed.

Lemma insert_ordered (a : T) (l : list T) :
  ManualSort.ordered compare l ->
  ManualSort.ordered compare (ManualSort.insert compare a l).
Proof.
  induction l as [|b l IH]; intros Hord.
  - cbn. split; [constructor | exact I].
  - destruct Hord as [Hb Hl]. cbn [ManualSort.insert].
    destruct (Z.ltb_spec (compare a b) 0) as [Hlt | Hge].
    + cbn [ManualSort.ordered]. repeat split; try assumption.
      constructor; [lia|].
      eapply Forall_impl; [|exact Hb]. intros x Hx.
      apply (compare_le_trans a b x); [lia | exact Hx].
    + cbn [ManualSort.ordered]. split; [|apply IH, Hl].
      apply Forall_forall. intros x Hx.
      apply (Permutation_in _ (insert_permutation a l)) in Hx.
      destruct Hx as [<- | Hx].
      * rewrite compare_flip. lia.
      * rewrite Forall_forall in Hb. apply Hb, Hx.
Qed.

Lemma sort_from (l acc : list T) :
  ManualSort.ordered compare acc ->
  Permutation (fold_left (fun acc a => ManualSort.insert compare a acc) l acc)
    (acc ++ l)
  /\ ManualSort.ordered compare
       (fold_left (fun acc a => ManualSort.insert compare a acc) l acc).
Proof.
  revert acc. induction l as [|a l IH]; intros acc Hacc.
  - cbn. rewrite app_nil_r. split; [reflexivity | exact Hacc].
  - cbn [fold_left].
    destruct (IH (ManualSort.insert compare a acc) (insert_ordered a acc Hacc))
      as [Hperm Hord].
    split; [|exact Hord].
    eapply Permutation_trans; [exact Hperm|].
    eapply Permutation_trans;
      [apply Permutation_app_tail, insert_permutation|].
    apply Permutation_middle.
Qed.

End CompareFacts.

(** When [>] is [<] with the sides swapped and [<] is never true both ways,
    swapping the arguments of the comparator negates its result, so that an
    element compares equal to itself. *)
Theorem compare_antisymmetric {T U : Type} (lt gt : T -> T -> bool)
    (reference : list U) (equalityFunc : T -> U -> Z -> list U -> bool) :
  (forall a b, gt a b = lt b a) ->
  (forall a b, lt a b = true -> lt b a = false) ->
  forall a b,
    ManualSort.getManualSortCompareFunction lt gt reference equalityFunc b a
    = - ManualSort.getManualSortCompareFunction lt gt reference equalityFunc a b
    /\ ManualSort.getManualSortCompareFunction lt gt reference equalityFunc a a
       = 0.
Proof.
  intros Hgt Hasym a b. split.
  - apply compare_flip; assumption.
  - pose proof (compare_flip lt gt reference equalityFunc Hgt Hasym a a). lia.
Qed.

Lemma Zltb_asymmetric (a b : Z) : (a <? b) = true -> (b <? a) = false.
Proof. intros H. apply Z.ltb_lt in H. apply Z.ltb_ge. lia. Qed.

Lemma Zltb_splits (a b c : Z) :
  (a <? c) = true -> (a <? b) = true \/ (b <? c) = true.
Proof.
  intros H. apply Z.ltb_lt in H.
  destruct (Z.ltb_spec a b); [now left|]. right. apply Z.ltb_lt. lia.
Qed.

Lemma compare_antisymmetric_witness :
  ManualSort.getManualSortCompareFunction Z.ltb Z.gtb [30; 10]
    (fun a x (_ : Z) (_ : list Z) => a =? x) 10 7
  = - ManualSort.getManualSortCompareFunction Z.ltb Z.gtb [30; 10]
        (fun a x (_ : Z) (_ : list Z) => a =? x) 7 10
  /\ ManualSort.getManualSortCompareFunction Z.ltb Z.gtb [30; 10]
       (fun a x (_ : Z) (_ : list Z) => a =? x) 7 7 = 0.
Proof.
  apply (compare_antisymmetric Z.ltb Z.gtb [30; 10]
           (fun a x _ _ => a =? x) Z.gtb_ltb Zltb_asymmetric 7 10).
Defined.

(** In a list that is in the order of the comparator no element missing
    from the reference list stands before one that is found there, and two
    found elements stand in the order of their reference indices. *)
Theorem ordered_found_first {T U : Type} (lt gt : T -> T -> bool)
    (reference : list U) (equalityFunc : T -> U -> Z -> list U -> bool)
    (before between after : list T) (x y : T) :
  ManualSort.ordered
    (ManualSort.getManualSortCompareFunction lt gt reference equalityFunc)
    (before ++ x :: between ++ y :: after) ->
  (0 <= ManualSort.index_of reference equalityFunc y ->
   0 <= ManualSort.index_of reference equalityFunc x
   /\ ManualSort.index_of reference equalityFunc x
      <= ManualSort.index_of reference equalityFunc y).
Proof.
  intros Hord Hy.
  assert (Hxy : ManualSort.getManualSortCompareFunction lt gt reference
                  equalityFunc x y <= 0).
  { induction before as [|b before IH].
    - destruct Hord as [Hx _]. rewrite Forall_forall in Hx. apply Hx.
      apply in_or_app. right. now left.
    - apply IH. exact (proj2 Hord). }
  rewrite compare_cases in Hxy.
  set (ix := ManualSort.index_of reference equalityFunc x) in *.
  set (iy := ManualSort.index_of reference equalityFunc y) in *.
  destruct (Z.leb_spec 0 ix), (Z.leb_spec 0 iy), (Z.ltb_spec ix 0),
    (Z.ltb_spec iy 0); cbn [andb] in Hxy; lia.
Qed.

Lemma ordered_found_first_witness :
  ManualSort.ordered (ManualSort.string_compare [str "b"; str "a"])
    ([] ++ str "b" :: [] ++ str "a" :: [str "c"])
  /\ 0 <= ManualSort.index_of [str "b"; str "a"]
            (fun a x (_ : Z) (_ : list jsstring) => string_eqb a x) (str "a")
  /\ 0 <= ManualSort.index_of [str "b"; str "a"]
            (fun a x (_ : Z) (_ : list jsstring) => string_eqb a x) (str "b")
  /\ ManualSort.index_of [str "b"; str "a"]
       (fun a x (_ : Z) (_ : list jsstring) => string_eqb a x) (str "b")
     <= ManualSort.index_of [str "b"; str "a"]
          (fun a x (_ : Z) (_ : list jsstring) => string_eqb a x) (str "a").
Proof.
  assert (Hord : ManualSort.ordered
                   (ManualSort.string_compare [str "b"; str "a"])
                   ([] ++ str "b" :: [] ++ str "a" :: [str "c"])).
  { cbn. repeat split; repeat constructor; discriminate. }
  split; [exact Hord|]. split; [cbn; lia|].
  apply (ordered_found_first string_ltb (fun a b => string_ltb b a)
           [str "b"; str "a"] (fun a x _ _ => string_eqb a x)
           [] [] [str "c"] (str "b") (str "a") Hord).
  cbn. lia.
Defined.

(** With a [<] that is a strict order whose unordered pairs are
    interchangeable, the comparator is consistent: sorting with it keeps
    every element and gives a list in the order of the comparator. *)
Theorem sort_with_comparator {T U : Type} (lt gt : T -> T -> bool)
    (reference : list U) (equalityFunc : T -> U -> Z -> list U -> bool)
    (l : list T) :
  (forall a b, gt a b = lt b a) ->
  (forall a b, lt a b = true -> lt b a = false) ->
  (forall a b c, lt a c = true -> lt a b = true \/ lt b c = true) ->
  let compare :=
    ManualSort.getManualSortCompareFunction lt gt reference equalityFunc in
  Permutation (ManualSort.sort compare l) l
  /\ ManualSort.ordered compare (ManualSort.sort compare l)
  /\ (forall a b c, compare a b <= 0 -> compare b c <= 0 -> compare a c <= 0).
Proof.
  intros Hgt Hasym Hsplit compare.
  destruct (sort_from lt gt reference equalityFunc Hgt Hasym Hsplit l [] I)
    as [Hperm Hord].
  repeat split.
  - exact Hperm.
  - exact Hord.
  - apply compare_le_trans; assumption.
Qed.

Lemma sort_with_comparator_witness :
  Permutation
    (ManualSort.sort
       (ManualSort.getManualSortCompareFunction Z.ltb Z.gtb [30; 10]
          (fun a x (_ : Z) (_ : list Z) => a =? x)) [5; 10; 2; 30; 10])
    [5; 10; 2; 30; 10]
  /\ ManualSort.ordered
       (ManualSort.getManualSortCompareFunction Z.ltb Z.gtb [30; 10]
          (fun a x (_ : Z) (_ : list Z) => a =? x))
       (ManualSort.sort
          (ManualSort.getManualSortCompareFunction Z.ltb Z.gtb [30; 10]
             (fun a x (_ : Z) (_ : list Z) => a =? x)) [5; 10; 2; 30; 10])
  /\ (forall a b c,
        ManualSort.getManualSortCompareFunction Z.ltb Z.gtb [30; 10]
          (fun a x (_ : Z) (_ : list Z) => a =? x) a b <= 0 ->
        ManualSort.getManualSortCompareFunction Z.ltb Z.gtb [30; 10]
          (fun a x (_ : Z) (_ : list Z) => a =? x) b c <= 0 ->
        ManualSort.getManualSortCompareFunction Z.ltb Z.gtb [30; 10]
          (fun a x (_ : Z) (_ : list Z) => a =? x) a c <= 0).
Proof.
  apply (sort_with_comparator Z.ltb Z.gtb [30; 10] (fun a x _ _ => a =? x)
           [5; 10; 2; 30; 10] Z.gtb_ltb Zltb_asymmetric Zltb_splits).
Defined.

(** Sorting numbers after the reference list [30], [10]. *)
Example sort_numbers :
  ManualSort.sort
    (ManualSort.getManualSortCompareFunction Z.ltb Z.gtb [30; 10]
       (fun a x (_ : Z) (_ : list Z) => a =? x)) [5; 10; 2; 30; 10]
  = [30; 10; 10; 2; 5].
Proof. reflexivity. Qed.

(** ** Group defaults *)

Lemma string_eqb_refl (s : jsstring) : string_eqb s s = true.
Proof. apply string_eqb_eq. reflexivity. Qed.

Lemma string_eqb_trans_l (k k' key : jsstring) :
  string_eqb k k' = true -> string_eqb k' key = string_eqb k key.
Proof. intros H. apply string_eqb_eq in H. now subst. Qed.

Lemma own_put {V} (obj : Lodash.object V) (k key : jsstring) (v : V) :
  Lodash.own (Lodash.put obj k v) key
  = if string_eqb k key then Some v else Lodash.own obj key.
Proof.
  induction obj as [|[k0 v0] obj IH]; cbn [Lodash.put Lodash.own].
  - reflexivity.
  - destruct (string_eqb k0 k) eqn:Hk; cbn [Lodash.own].
    + apply string_eqb_eq in Hk. subst k0.
      destruct (string_eqb k key); reflexivity.
    + rewrite IH. destruct (string_eqb k0 key) eqn:Hkey; [|reflexivity].
      destruct (string_eqb k key) eqn:Hk'; [|reflexivity].
      apply string_eqb_eq in Hkey, Hk'. subst.
      rewrite string_eqb_refl in Hk. discriminate.
Qed.

Lemma keys_put {V} (obj : Lodash.object V) (k : jsstring) (v : V) :
  map fst (Lodash.put obj k v)
  = if existsb (string_eqb k) (map fst obj) then map fst obj
    else map fst obj ++ [k].
Proof.
  induction obj as [|[k0 v0] obj IH]; [reflexivity|].
  cbn [Lodash.put map fst existsb].
  destruct (string_eqb k0 k) eqn:Hk.
  - apply string_eqb_eq in Hk. subst. rewrite string_eqb_refl. reflexivity.
  - replace (string_eqb k k0) with false.
    + cbn [map fst orb]. rewrite IH.
      destruct (existsb (string_eqb k) (map fst obj)); reflexivity.
    + symmetry. destruct (string_eqb k k0) eqn:Hk'; [|reflexivity].
      apply string_eqb_eq in Hk'. subst. rewrite string_eqb_refl in Hk.
      discriminate.
Qed.

Lemma keys_assign_proper {V} (obj : Lodash.object V) (k : jsstring) (v : V) :
  Lodash.proper_keys obj -> Lodash.proper_keys (Lodash.assign obj k v).
Proof.
  intros [Hnd Hproto]. unfold Lodash.assign.
  destruct (string_eqb k Lodash.proto) eqn:Hk; [split; assumption|].
  unfold Lodash.proper_keys. rewrite keys_put.
  destruct (existsb (string_eqb k) (map fst obj)) eqn:Hex; [split; assumption|].
  split.
  - apply NoDup_app; [exact Hnd | constructor; [intros [] | constructor] |].
    intros x Hx [<- | []].
    assert (Hin : existsb (string_eqb k) (map fst obj) = true)
      by (apply existsb_exists; exists k; split;
          [exact Hx | apply string_eqb_refl]).
    congruence.
  - intros Hin. apply in_app_or in Hin as [Hin | [Heq | []]].
    + exact (Hproto Hin).
    + rewrite Heq, string_eqb_refl in Hk. discriminate.
Qed.

Lemma find_in_app {A} (f : A -> bool) (l1 l2 : list A) :
  find f (l1 ++ l2)
  = match find f l1 with Some x => Some x | None => find f l2 end.
Proof.
  induction l1 as [|a l1 IH]; [reflexivity|].
  cbn [app find]. destruct (f a); [reflexivity | exact IH].
Qed.

Lemma fromPairs_from {V} (pairs acc : Lodash.object V) (key : jsstring) :
  Lodash.own
    (fold_left (fun result pair => Lodash.assign result (fst pair) (snd pair))
       pairs acc) key
  = match find (fun kv => negb (string_eqb (fst kv) Lodash.proto)
                          && string_eqb (fst kv) key) (rev pairs) with
    | Some kv => Some (snd kv)
    | None => Lodash.own acc key
    end
  /\ (Lodash.proper_keys acc ->
      Lodash.proper_keys
        (fold_left
           (fun result pair => Lodash.assign result (fst pair) (snd pair))
           pairs acc)).
Proof.
  revert acc. induction pairs as [|[k v] pairs IH]; intros acc.
  - split; [reflexivity | auto].
  - cbn [fold_left fst snd rev].
    destruct (IH (Lodash.assign acc k v)) as [Hget Hkeys].
    split.
    + rewrite Hget, find_in_app.
      destruct (find (fun kv => negb (string_eqb (fst kv) Lodash.proto)
                                && string_eqb (fst kv) key) (rev pairs));
        [reflexivity|].
      cbn [find fst snd]. unfold Lodash.assign.
      destruct (string_eqb k Lodash.proto); cbn [negb andb]; [reflexivity|].
      rewrite own_put. destruct (string_eqb k key); reflexivity.
    + intros Hacc. apply Hkeys, keys_assign_proper, Hacc.
Qed.

(** The object of defaults has an own property for exactly the option
    names other than [__proto__], holding the default of the last option
    with that name; an option named [__proto__] leaves no property, its
    primitive default being ignored by the prototype's setter; and no name
    occurs in the object twice. *)
Theorem getGroupDefaults_last_wins (options : list Helpers.question)
    (key : jsstring) :
  Lodash.own (Helpers.getGroupDefaults options) key
  = (if string_eqb key Lodash.proto then None
     else option_map Helpers.question_default
            (find (fun q => string_eqb (Helpers.question_name q) key)
               (rev options)))
  /\ NoDup (map fst (Helpers.getGroupDefaults options))
  /\ ~ In Lodash.proto (map fst (Helpers.getGroupDefaults options)).
Proof.
  unfold Helpers.getGroupDefaults, Lodash.fromPairs.
  destruct (fromPairs_from
              (map (fun question => (Helpers.question_name question,
                                     Helpers.question_default question))
                 options) [] key) as [Hget Hkeys].
  split; [|apply Hkeys; split; [constructor | intros []]].
  rewrite Hget, <- map_rev. cbn [Lodash.own].
  induction (rev options) as [|q l IH].
  - destruct (string_eqb key Lodash.proto); reflexivity.
  - cbn [map find fst snd].
    destruct (string_eqb (Helpers.question_name q) key) eqn:Hq.
    + apply string_eqb_eq in Hq. subst key.
      destruct (string_eqb (Helpers.question_name q) Lodash.proto) eqn:Hp;
        cbn [negb andb]; [|reflexivity].
      rewrite IH. rewrite ?Hp. reflexivity.
    + rewrite andb_false_r. exact IH.
Qed.

(** Two options with the same name: the later default is kept; an option
    named [__proto__] leaves nothing. *)
Example getGroupDefaults_duplicate_name :
  Helpers.getGroupDefaults
    [ {| Helpers.question_name := str "network";
         Helpers.question_default := Helpers.Str (str "ethernet") |};
      {| Helpers.question_name := str "__proto__";
         Helpers.question_default := Helpers.Num 1 |};
      {| Helpers.question_name := str "port";
         Helpers.question_default := Helpers.Num 80 |};
      {| Helpers.question_name := str "network";
         Helpers.question_default := Helpers.Str (str "wifi") |} ]
  = [ (str "network", Helpers.Str (str "wifi"));
      (str "port", Helpers.Num 80) ].
Proof. reflexivity. Qed.

(** ** Progress lines *)

Lemma createPadding_one_char (c : char) (n : nat) (rest : jsstring) :
  rest = [] \/ rest = [c] ->
  Lodash.createPadding n [c] rest = repeat c n.
Proof.
  revert rest. induction n as [|n IH]; intros rest Hrest; [reflexivity|].
  destruct Hrest as [-> | ->]; cbn [Lodash.createPadding repeat];
    f_equal; apply IH; now left.
Qed.

Lemma padStart_one_char (s : jsstring) (len : Z) (c : char) :
  Lodash.padStart s len [c] = repeat c (Z.to_nat (len - length s)) ++ s.
Proof.
  unfold Lodash.padStart.
  destruct (Z.eqb_spec len 0) as [-> | Hlen]; cbn [negb andb].
  - replace (Z.to_nat (0 - length s)) with 0%nat
      by (unfold length; lia).
    reflexivity.
  - destruct (Z.ltb_spec (length s) len) as [Hlt | Hge].
    + rewrite createPadding_one_char by now right. reflexivity.
    + replace (Z.to_nat (len - length s)) with 0%nat by lia. reflexivity.
Qed.

Lemma digits_below_1000 (n : nat) :
  (n < 1000)%nat ->
  (List.length (Spawn.number_to_string (Z.of_nat n)) <= 3)%nat.
Proof.
  intros Hn.
  assert (Hall : forallb
                   (fun k => Nat.leb
                               (List.length (Spawn.number_to_string (Z.of_nat k)))
                               3)
                   (seq 0 1000) = true) by (vm_compute; reflexivity).
  rewrite forallb_forall in Hall.
  apply Nat.leb_le, Hall, in_seq. lia.
Qed.

(** The percentage of a progress line is its decimal text with zeros put
    in front up to three characters: a longer text is kept as it is, and a
    percentage from 0 to 999 takes exactly three characters. *)
Theorem padded_percentage_width (state : Helpers.OperationState) :
  let text := Spawn.number_to_string (Helpers.percentage state) in
  Helpers.padded_percentage state
  = repeat (chr "0"%char) (Z.to_nat (3 - length text)) ++ text
  /\ length (Helpers.padded_percentage state) = Z.max 3 (length text)
  /\ (0 <= Helpers.percentage state < 1000 ->
      length (Helpers.padded_percentage state) = 3).
Proof.
  intros text.
  assert (Heq : Helpers.padded_percentage state
                = repeat (chr "0"%char) (Z.to_nat (3 - length text)) ++ text)
    by apply padStart_one_char.
  assert (Hlen : length (Helpers.padded_percentage state)
                 = Z.max 3 (length text)).
  { rewrite Heq. unfold length. rewrite length_app, repeat_length.
    unfold length. lia. }
  repeat split; [exact Heq | exact Hlen |].
  intros Hp. rewrite Hlen.
  pose proof (digits_below_1000 (Z.to_nat (Helpers.percentage state))
                ltac:(lia)) as Hd.
  rewrite Z2Nat.id in Hd by lia. fold text in Hd. unfold length. lia.
Qed.

Lemma padded_percentage_width_witness :
  0 <= Helpers.percentage
         {| Helpers.percentage := 7;
            Helpers.state_operation :=
              {| Helpers.command := str "copy"; Helpers.from_path := str "a";
                 Helpers.to_path := str "b"; Helpers.file_path := [];
                 Helpers.copy_field := []; Helpers.replace_field := [];
                 Helpers.script := [] |} |} < 1000
  /\ length (Helpers.padded_percentage
               {| Helpers.percentage := 7;
                  Helpers.state_operation :=
                    {| Helpers.command := str "copy";
                       Helpers.from_path := str "a";
                       Helpers.to_path := str "b"; Helpers.file_path := [];
                       Helpers.copy_field := []; Helpers.replace_field := [];
                       Helpers.script := [] |} |}) = 3.
Proof.
  split; [cbn; lia|].
  apply (proj2 (proj2 (padded_percentage_width
           {| Helpers.percentage := 7;
              Helpers.state_operation :=
                {| Helpers.command := str "copy"; Helpers.from_path := str "a";
                   Helpers.to_path := str "b"; Helpers.file_path := [];
                   Helpers.copy_field := []; Helpers.replace_field := [];
                   Helpers.script := [] |} |}))).
  cbn. lia.
Defined.

(** The listener for [state] events writes nothing for a [burn] state,
    although [stateToString] rejects that command; it writes one line for
    [copy], [replace] and [run-script], and throws "Unsupported operation"
    for every other command. *)
Theorem on_state_outcome (blue cyan : jsstring -> jsstring)
    (state : Helpers.OperationState) :
  let c := Helpers.command (Helpers.state_operation state) in
  (c = str "burn" ->
     Helpers.on_state blue cyan state = Returned []
     /\ Helpers.stateToString blue cyan state
        = Threw (Spawn.Error (str "Unsupported operation: burn")))
  /\ (c = str "copy" \/ c = str "replace" \/ c = str "run-script" ->
      exists line,
        Helpers.stateToString blue cyan state = Returned line
        /\ Helpers.on_state blue cyan state = Returned [line]
        /\ Spawn.occurs_in
             (blue (Helpers.padded_percentage state ++ str "%")) line
        /\ Spawn.occurs_in (cyan c) line)
  /\ (c <> str "burn" -> c <> str "copy" -> c <> str "replace" ->
      c <> str "run-script" ->
      Helpers.on_state blue cyan state
      = Threw (Spawn.Error (str "Unsupported operation: " ++ c))).
Proof.
  intros c. unfold Helpers.on_state, Helpers.stateToString. fold c.
  repeat apply conj.
  - intros ->. split; reflexivity.
  - intros [-> | [-> | ->]]; cbn [string_eqb str chr N_of_ascii char_eqb N.eqb Pos.eqb andb];
      (eexists; split; [reflexivity|]; split; [reflexivity|];
       split; auto 10 with occurs).
  - intros H1 H2 H3 H4.
    assert (Hne : forall t, c <> t -> string_eqb c t = false).
    { intros t Ht. destruct (string_eqb c t) eqn:Heq; [|reflexivity].
      apply string_eqb_eq in Heq. contradiction. }
    rewrite (Hne _ H1), (Hne _ H2), (Hne _ H3), (Hne _ H4). reflexivity.
Qed.

Lemma on_state_outcome_witness :
  (Helpers.command
     (Helpers.state_operation
        {| Helpers.percentage := 50;
           Helpers.state_operation :=
             {| Helpers.command := str "burn"; Helpers.from_path := [];
                Helpers.to_path := []; Helpers.file_path := [];
                Helpers.copy_field := []; Helpers.replace_field := [];
                Helpers.script := [] |} |}) = str "burn"
   /\ Helpers.on_state (fun s => s) (fun s => s)
        {| Helpers.percentage := 50;
           Helpers.state_operation :=
             {| Helpers.command := str "burn"; Helpers.from_path := [];
                Helpers.to_path := []; Helpers.file_path := [];
                Helpers.copy_field := []; Helpers.replace_field := [];
                Helpers.script := [] |} |} = Returned [])
  /\ Helpers.on_state (fun s => s) (fun s => s)
       {| Helpers.percentage := 50;
          Helpers.state_operation :=
            {| Helpers.command := str "format"; Helpers.from_path := [];
               Helpers.to_path := []; Helpers.file_path := [];
               Helpers.copy_field := []; Helpers.replace_field := [];
               Helpers.script := [] |} |}
     = Threw (Spawn.Error (str "Unsupported operation: format")).
Proof.
  split.
  - split; [reflexivity|].
    apply (proj1 (on_state_outcome (fun s => s) (fun s => s)
             {| Helpers.percentage := 50;
                Helpers.state_operation :=
                  {| Helpers.command := str "burn"; Helpers.from_path := [];
                     Helpers.to_path := []; Helpers.file_path := [];
                     Helpers.copy_field := []; Helpers.replace_field := [];
                     Helpers.script := [] |} |})).
    reflexivity.
  - apply (proj2 (proj2 (on_state_outcome (fun s => s) (fun s => s)
             {| Helpers.percentage := 50;
                Helpers.state_operation :=
                  {| Helpers.command := str "format"; Helpers.from_path := [];
                     Helpers.to_path := []; Helpers.file_path := [];
                     Helpers.copy_field := []; Helpers.replace_field := [];
                     Helpers.script := [] |} |})));
      discriminate.
Defined.

(** A progress line for a copy at 7 percent, without colours. *)
Example stateToString_copy :
  Helpers.stateToString (fun s => s) (fun s => s)
    {| Helpers.percentage := 7;
       Helpers.state_operation :=
         {| Helpers.command := str "copy"; Helpers.from_path := str "a";
            Helpers.to_path := str "b"; Helpers.file_path := [];
            Helpers.copy_field := []; Helpers.replace_field := [];
            Helpers.script := [] |} |}
  = Returned (str "007% copy a -> b").
Proof. reflexivity. Qed.

(** ** Application names *)

Lemma split_nonempty (s : jsstring) (sep : char) : Lodash.split s sep <> [].
Proof.
  destruct s as [|c s]; cbn [Lodash.split]; [discriminate|].
  destruct (char_eqb c sep); [discriminate|].
  destruct (Lodash.split s sep); discriminate.
Qed.

Lemma split_cons_other (c sep : char) (s : jsstring) :
  char_eqb c sep = false ->
  exists piece pieces,
    Lodash.split s sep = piece :: pieces
    /\ Lodash.split (c :: s) sep = (c :: piece) :: pieces.
Proof.
  intros Hc. cbn [Lodash.split]. rewrite Hc.
  destruct (Lodash.split s sep) as [|piece pieces] eqn:Hs.
  - exfalso. exact (split_nonempty s sep Hs).
  - exists piece, pieces. split; reflexivity.
Qed.

Lemma split_without_sep (p : jsstring) (sep : char) :
  ~ In sep p -> Lodash.split p sep = [p].
Proof.
  induction p as [|c p IH]; intros Hp; [reflexivity|].
  assert (Hc : char_eqb c sep = false).
  { destruct (char_eqb c sep) eqn:H; [|reflexivity].
    apply char_eqb_eq in H. subst. exfalso. apply Hp. now left. }
  cbn [Lodash.split]. rewrite Hc, IH; [reflexivity|].
  intros H. apply Hp. now right.
Qed.

Lemma split_at_first_sep (p s : jsstring) (sep : char) :
  ~ In sep p -> Lodash.split (p ++ sep :: s) sep = p :: Lodash.split s sep.
Proof.
  induction p as [|c p IH]; intros Hp.
  - cbn [app Lodash.split]. rewrite char_eqb_refl. reflexivity.
  - assert (Hc : char_eqb c sep = false).
    { destruct (char_eqb c sep) eqn:H; [|reflexivity].
      apply char_eqb_eq in H. subst. exfalso. apply Hp. now left. }
    cbn [app Lodash.split]. rewrite Hc, IH; [reflexivity|].
    intros H. apply Hp. now right.
Qed.

(** Splitting a string at a separator and joining the pieces with it gives
    the string back; no piece holds the separator, and there is one piece
    more than there are separators. *)
Theorem split_join_round_trip (s : jsstring) (sep : char) :
  join [sep] (Lodash.split s sep) = s
  /\ Forall (fun piece => ~ In sep piece) (Lodash.split s sep)
  /\ List.length (Lodash.split s sep)
     = Datatypes.S (count_occ N.eq_dec s sep).
Proof.
  induction s as [|c s (Hjoin & Hpieces & Hlen)].
  - cbn. repeat split. constructor; [intros []|constructor].
  - destruct (char_eqb c sep) eqn:Hc.
    + apply char_eqb_eq in Hc. subst c.
      cbn [Lodash.split]. rewrite char_eqb_refl.
      destruct (Lodash.split s sep) as [|piece pieces] eqn:Hs;
        [exfalso; exact (split_nonempty s sep Hs)|].
      repeat split.
      * change (join [sep] ([] :: piece :: pieces))
          with ([] ++ [sep] ++ join [sep] (piece :: pieces)).
        rewrite Hjoin. reflexivity.
      * constructor; [intros []|exact Hpieces].
      * cbn [List.length count_occ] in *.
        destruct (N.eq_dec sep sep); [lia|congruence].
    + destruct (split_cons_other c sep s Hc) as (piece & pieces & Hs & Hcs).
      rewrite Hcs. rewrite Hs in Hjoin, Hpieces, Hlen.
      repeat split.
      * rewrite <- Hjoin. destruct pieces; reflexivity.
      * constructor; [|exact (Forall_inv_tail Hpieces)].
        intros [<- | Hin]; [rewrite char_eqb_refl in Hc; discriminate|].
        exact (Forall_inv Hpieces Hin).
      * cbn [List.length count_occ] in *.
        destruct (N.eq_dec c sep) as [-> | _];
          [rewrite char_eqb_refl in Hc; discriminate | exact Hlen].
Qed.

(** A name without a slash is looked up as it is; a name with a slash is
    looked up by owner and application name, the owner being the text
    before the first slash and the application name the text between the
    first and the second slash: what follows a second slash is ignored. *)
Theorem getApplication_dispatch (applicationName : jsstring) :
  (~ In Helpers.slash applicationName ->
   Helpers.getApplication applicationName = Helpers.Get applicationName)
  /\ (forall owner appName rest,
        ~ In Helpers.slash owner -> ~ In Helpers.slash appName ->
        (applicationName = owner ++ Helpers.slash :: appName
         \/ applicationName
            = owner ++ Helpers.slash :: appName ++ Helpers.slash :: rest) ->
        Helpers.getApplication applicationName
        = Helpers.GetAppByOwner appName owner).
Proof.
  unfold Helpers.getApplication. split.
  - intros Hno. rewrite split_without_sep by exact Hno. reflexivity.
  - intros owner appName rest Ho Ha [-> | ->].
    + rewrite split_at_first_sep, split_without_sep by assumption.
      reflexivity.
    + rewrite !split_at_first_sep by assumption.
      destruct (Lodash.split rest Helpers.slash); reflexivity.
Qed.

Lemma getApplication_dispatch_witness :
  (~ In Helpers.slash (str "myApp")
   /\ Helpers.getApplication (str "myApp") = Helpers.Get (str "myApp"))
  /\ Helpers.getApplication (str "org/myApp/extra")
     = Helpers.GetAppByOwner (str "myApp") (str "org").
Proof.
  assert (H1 : ~ In Helpers.slash (str "myApp"))
    by (intros [H|[H|[H|[H|[H|[]]]]]]; discriminate H).
  assert (H2 : ~ In Helpers.slash (str "org"))
    by (intros [H|[H|[H|[]]]]; discriminate H).
  split.
  - split; [exact H1|].
    apply (proj1 (getApplication_dispatch (str "myApp")) H1).
  - apply (proj2 (getApplication_dispatch (str "org/myApp/extra"))
             (str "org") (str "myApp") (str "extra") H2 H1).
    right. reflexivity.
Defined.

Lemma find_nothing {A} (f : A -> bool) (l : list A) :
  (forall x, In x l -> f x = false) -> find f l = None.
Proof.
  induction l as [|a l IH]; intros Hall; [reflexivity|].
  cbn [find]. rewrite (Hall a) by now left.
  apply IH. intros x Hx. apply Hall. now right.
Qed.

(** The application gets the architecture of the first device type whose
    slug is its device type; without such a device type the error "Could
    not read application information!" is thrown. *)
Theorem withArch_first_match {App : Type} (device_type : App -> jsstring)
    (app : App) (deviceTypes : list Helpers.DeviceType) :
  (forall earlier config later,
     deviceTypes = earlier ++ config :: later ->
     Helpers.slug config = device_type app ->
     (forall dt, In dt earlier -> Helpers.slug dt <> device_type app) ->
     Helpers.withArch device_type app deviceTypes
     = Returned (app, Helpers.arch config))
  /\ ((forall dt, In dt deviceTypes -> Helpers.slug dt <> device_type app)
      <-> Helpers.withArch device_type app deviceTypes
          = Threw (Spawn.Error (str "Could not read application information!"))).
Proof.
  unfold Helpers.withArch. split.
  - intros earlier config later -> Hslug Hearlier.
    rewrite find_in_app.
    replace (find (fun dt => string_eqb (Helpers.slug dt) (device_type app))
               earlier) with (@None Helpers.DeviceType).
    + cbn [find]. rewrite Hslug, string_eqb_refl. reflexivity.
    + symmetry. apply find_nothing. intros dt Hdt.
      destruct (string_eqb (Helpers.slug dt) (device_type app)) eqn:Heq;
        [|reflexivity].
      apply string_eqb_eq in Heq. exfalso. exact (Hearlier dt Hdt Heq).
  - destruct (find (fun dt => string_eqb (Helpers.slug dt) (device_type app))
                deviceTypes) as [config|] eqn:Hfind.
    + split; [|discriminate].
      intros Hnone. apply find_some in Hfind as [Hin Heq].
      apply string_eqb_eq in Heq. exfalso. exact (Hnone config Hin Heq).
    + split; [reflexivity|]. intros _ dt Hdt Heq.
      pose proof (find_none _ _ Hfind dt Hdt) as Hf. cbn in Hf.
      rewrite Heq, string_eqb_refl in Hf. discriminate.
Qed.

Lemma withArch_first_match_witness :
  Helpers.withArch (fun app : jsstring => app) (str "raspberrypi3") device_types
  = Returned (str "raspberrypi3", str "armv7hf").
Proof.
  apply (proj1 (withArch_first_match (fun app : jsstring => app)
                  (str "raspberrypi3") device_types)
           [] {| Helpers.slug := str "raspberrypi3";
                 Helpers.arch := str "armv7hf";
                 Helpers.isDependent := None |}
           (tl device_types) eq_refl eq_refl).
  intros dt [].
Defined.

(** ** Counting devices *)

Lemma sum_from (A : Type) (f : A -> Z) (l : list A) (acc : Z) :
  fold_left (fun result x => result + f x) l acc
  = acc + fold_left (fun result x => result + f x) l 0.
Proof.
  revert acc. induction l as [|a l IH]; intros acc; cbn [fold_left]; [lia|].
  rewrite (IH (acc + f a)), (IH (0 + f a)). lia.
Qed.

(** The number of online devices lies between 0 and the number of devices;
    both are 0 for an application without a device list; and the two are
    equal exactly when [is_online] is [true] for every device. *)
Theorem online_devices_bounds (owns__device : option (list Apps.device)) :
  0 <= Apps.online_devices owns__device <= Apps.device_count owns__device
  /\ (owns__device = None ->
      Apps.online_devices owns__device = 0
      /\ Apps.device_count owns__device = 0)
  /\ (forall l, owns__device = Some l ->
        (Apps.online_devices owns__device = Apps.device_count owns__device
         <-> Forall (fun d => Apps.is_online d = Spawn.Val true) l)).
Proof.
  assert (Hl : forall l : list Apps.device,
             0 <= Apps.online_devices (Some l) <= Apps.device_count (Some l)
             /\ (Apps.online_devices (Some l) = Apps.device_count (Some l)
                 <-> Forall (fun d => Apps.is_online d = Spawn.Val true) l)).
  { unfold Apps.online_devices, Apps.device_count, Lodash.sumBy.
    induction l as [|d l [Hb Hiff]].
    - cbn. split; [lia|]. split; [constructor|reflexivity].
    - cbn [fold_left List.length]. rewrite sum_from.
      destruct (Apps.is_online d) as [| |[|]] eqn:Hd.
      + split; [lia|]. split; [lia|]. intros H. apply Forall_inv in H.
        congruence.
      + split; [lia|]. split; [lia|]. intros H. apply Forall_inv in H.
        congruence.
      + split; [lia|]. split.
        * intros H. constructor; [exact Hd|]. apply Hiff. lia.
        * intros H. apply Forall_inv_tail in H. apply Hiff in H. lia.
      + split; [lia|]. split; [lia|]. intros H. apply Forall_inv in H.
        congruence. }
  repeat apply conj.
  - destruct owns__device as [l|]; [apply Hl | cbn; lia].
  - destruct owns__device as [l|]; [apply Hl | cbn; lia].
  - intros ->. split; reflexivity.
  - intros l ->. apply Hl.
Qed.

Lemma online_devices_bounds_witness :
  Apps.online_devices None = 0 /\ Apps.device_count None = 0.
Proof.
  apply (proj1 (proj2 (online_devices_bounds None))). reflexivity.
Defined.

(** ** Initializing a device *)

Ltac event_not_in :=
  let H := fresh "Hin" in
  intros H; cbn in H;
  repeat (destruct H as [H|H]; [discriminate H|]); exact H.

Ltac event_in := cbn; repeat (first [left; reflexivity | right]).

Ltac run_action :=
  unfold OsInit.action, OsInit.tap, OsInit.getManifest, OsInit.run_sudo,
    Helpers.sudo, OsInit.bind, OsInit.emit, OsInit.ret.

(** When the form's answers name no drive, the action asks for no
    confirmation and unmounts nothing: it runs the privileged command
    [internal osinit <image> <type> <answers>] once, as a command of the CLI
    itself, and ends as that command ends. *)
Theorem initialize_without_drive {Manifest Answers Exn : Type}
    (imageManifest : outcome (option Manifest) Exn)
    (manifestBySlug : outcome Manifest Exn)
    (form : Manifest -> option jsstring -> outcome Answers Exn)
    (confirm umount_before umount_after executeWithPrivileges : outcome unit Exn)
    (drive : Answers -> option jsstring) (stringify : Answers -> jsstring)
    (platform image type : jsstring) (option_drive : option jsstring)
    (yes : option bool) (m : Manifest) (a : Answers) :
  imageManifest = Returned (Some m)
  \/ (imageManifest = Returned None /\ manifestBySlug = Returned m) ->
  form m option_drive = Returned a ->
  drive a = None ->
  let run := OsInit.action imageManifest manifestBySlug form confirm
               umount_before umount_after executeWithPrivileges drive
               stringify platform image type option_drive yes in
  snd run = executeWithPrivileges
  /\ OsInit.confirmations (fst run) = 0%nat
  /\ OsInit.umounts (fst run) = []
  /\ OsInit.privileged_commands (fst run)
     = [[str "internal"; str "osinit"; image; type; stringify a]]
  /\ In (OsInit.ExecuteWithPrivileges
           [str "internal"; str "osinit"; image; type; stringify a] true)
       (fst run).
Proof.
  intros Hman Hform Hdrive run. unfold run. run_action.
  destruct Hman as [-> | [-> ->]]; rewrite Hform;
    destruct (negb (string_eqb platform (str "win32")));
    destruct executeWithPrivileges as [[]|x];
    cbn -[str]; rewrite ?Hdrive; cbn -[str];
    repeat split; auto 10.
Qed.

Lemma initialize_without_drive_witness :
  snd (OsInit.action (Exn := unit) (Returned None) (Returned tt)
         (fun _ d => Returned d) (Threw tt) (Threw tt) (Threw tt) (Returned tt)
         (fun a : option jsstring => a) (fun _ => str "{}") (str "linux")
         (str "rpi.img") (str "raspberry-pi") None None)
  = Returned tt
  /\ OsInit.confirmations
       (fst (OsInit.action (Exn := unit) (Returned None) (Returned tt)
               (fun _ d => Returned d) (Threw tt) (Threw tt) (Threw tt)
               (Returned tt) (fun a : option jsstring => a) (fun _ => str "{}")
               (str "linux") (str "rpi.img") (str "raspberry-pi") None None))
     = 0%nat.
Proof.
  destruct (initialize_without_drive (Exn := unit) (Returned None) (Returned tt)
              (fun _ d => Returned d) (Threw tt) (Threw tt) (Threw tt)
              (Returned tt) (fun a : option jsstring => a) (fun _ => str "{}")
              (str "linux") (str "rpi.img") (str "raspberry-pi") None None
              tt None (or_intror (conj eq_refl eq_refl)) eq_refl eq_refl)
    as (Hres & Hconf & _).
  split; [exact Hres | exact Hconf].
Defined.

(** When the answers name a drive and the confirmation is refused, or the
    drive cannot be unmounted, the action ends with that error and the
    privileged command is never run; the drive is not unmounted a second
    time. *)
Theorem initialize_stops_before_elevation {Manifest Answers Exn : Type}
    (imageManifest : outcome (option Manifest) Exn)
    (manifestBySlug : outcome Manifest Exn)
    (form : Manifest -> option jsstring -> outcome Answers Exn)
    (confirm umount_before umount_after executeWithPrivileges : outcome unit Exn)
    (drive : Answers -> option jsstring) (stringify : Answers -> jsstring)
    (platform image type : jsstring) (option_drive : option jsstring)
    (yes : option bool) (m : Manifest) (a : Answers) (d : jsstring) (x : Exn) :
  imageManifest = Returned (Some m)
  \/ (imageManifest = Returned None /\ manifestBySlug = Returned m) ->
  form m option_drive = Returned a ->
  drive a = Some d ->
  confirm = Threw x \/ (confirm = Returned tt /\ umount_before = Threw x) ->
  let run := OsInit.action imageManifest manifestBySlug form confirm
               umount_before umount_after executeWithPrivileges drive
               stringify platform image type option_drive yes in
  snd run = Threw x
  /\ OsInit.privileged_commands (fst run) = []
  /\ OsInit.confirmations (fst run) = 1%nat
  /\ OsInit.umounts (fst run)
     = match confirm with Returned _ => [d] | Threw _ => [] end.
Proof.
  intros Hman Hform Hdrive Hstop run. unfold run. run_action.
  destruct Hman as [-> | [-> ->]]; rewrite Hform;
    destruct Hstop as [-> | [-> ->]];
    cbn -[str]; rewrite ?Hdrive; cbn -[str];
    repeat split.
Qed.

Lemma initialize_stops_before_elevation_witness :
  snd (OsInit.action (Exn := jsstring) (Returned (Some tt)) (Threw (str "sdk"))
         (fun _ d => Returned d) (Threw (str "declined")) (Returned tt)
         (Returned tt) (Returned tt)
         (fun a : option jsstring => a) (fun _ => str "{}") (str "linux")
         (str "rpi.img") (str "raspberry-pi") (Some (str "/dev/sdb")) None)
  = Threw (str "declined")
  /\ OsInit.privileged_commands
       (fst (OsInit.action (Exn := jsstring) (Returned (Some tt))
               (Threw (str "sdk")) (fun _ d => Returned d)
               (Threw (str "declined")) (Returned tt) (Returned tt)
               (Returned tt) (fun a : option jsstring => a)
               (fun _ => str "{}") (str "linux") (str "rpi.img")
               (str "raspberry-pi") (Some (str "/dev/sdb")) None))
     = [].
Proof.
  destruct (initialize_stops_before_elevation (Exn := jsstring)
              (Returned (Some tt)) (Threw (str "sdk")) (fun _ d => Returned d)
              (Threw (str "declined")) (Returned tt) (Returned tt) (Returned tt)
              (fun a : option jsstring => a) (fun _ => str "{}") (str "linux")
              (str "rpi.img") (str "raspberry-pi") (Some (str "/dev/sdb")) None
              tt (Some (str "/dev/sdb")) (str "/dev/sdb") (str "declined")
              (or_introl eq_refl) eq_refl eq_refl (or_introl eq_refl))
    as (Hres & Hpriv & _).
  split; [exact Hres | exact Hpriv].
Defined.

(** When the answers name a drive, the confirmation is given and the drive
    is unmounted, the privileged command is run exactly once.  If it fails,
    the action ends with its error and the drive is not unmounted again; if
    it succeeds, the drive is unmounted a second time, and the message that
    the drive can be removed is the last thing written, and only when that
    second unmount succeeds. *)
Theorem initialize_with_drive {Manifest Answers Exn : Type}
    (imageManifest : outcome (option Manifest) Exn)
    (manifestBySlug : outcome Manifest Exn)
    (form : Manifest -> option jsstring -> outcome Answers Exn)
    (confirm umount_before umount_after executeWithPrivileges : outcome unit Exn)
    (drive : Answers -> option jsstring) (stringify : Answers -> jsstring)
    (platform image type : jsstring) (option_drive : option jsstring)
    (yes : option bool) (m : Manifest) (a : Answers) (d : jsstring) :
  imageManifest = Returned (Some m)
  \/ (imageManifest = Returned None /\ manifestBySlug = Returned m) ->
  form m option_drive = Returned a ->
  drive a = Some d ->
  confirm = Returned tt ->
  umount_before = Returned tt ->
  let run := OsInit.action imageManifest manifestBySlug form confirm
               umount_before umount_after executeWithPrivileges drive
               stringify platform image type option_drive yes in
  let removable := OsInit.Info (str "You can safely remove " ++ d ++ str " now") in
  OsInit.privileged_commands (fst run)
  = [[str "internal"; str "osinit"; image; type; stringify a]]
  /\ (forall x, executeWithPrivileges = Threw x ->
        snd run = Threw x /\ OsInit.umounts (fst run) = [d]
        /\ ~ In removable (fst run))
  /\ (executeWithPrivileges = Returned tt ->
      snd run = umount_after
      /\ OsInit.umounts (fst run) = [d; d]
      /\ (umount_after = Returned tt -> last (fst run) removable = removable
          /\ In removable (fst run))
      /\ (forall x, umount_after = Threw x -> ~ In removable (fst run))).
Proof.
  intros Hman Hform Hdrive -> -> run removable. unfold run, removable.
  run_action.
  destruct Hman as [-> | [-> ->]]; rewrite Hform;
    destruct (negb (string_eqb platform (str "win32")));
    destruct executeWithPrivileges as [[]|x0];
    destruct umount_after as [[]|y0];
    cbn -[str]; rewrite ?Hdrive; cbn -[str];
    (repeat apply conj;
     [ reflexivity
     | intros x Hx;
       first [ discriminate Hx
             | repeat apply conj; [ exact Hx | reflexivity | event_not_in ] ]
     | intros Hx;
       first [ discriminate Hx
             | repeat apply conj;
               [ reflexivity | reflexivity
               | intros Hy;
                 first [ discriminate Hy | split; [reflexivity | event_in] ]
               | intros y Hy; first [ discriminate Hy | event_not_in ] ] ] ]).
Qed.

Lemma initialize_with_drive_witness :
  OsInit.privileged_commands
    (fst (OsInit.action (Exn := jsstring) (Returned (Some tt))
            (Threw (str "sdk")) (fun _ d => Returned d) (Returned tt)
            (Returned tt) (Returned tt) (Returned tt)
            (fun a : option jsstring => a) (fun _ => str "{}") (str "linux")
            (str "rpi.img") (str "raspberry-pi") (Some (str "/dev/sdb"))
            (Some true)))
  = [[str "internal"; str "osinit"; str "rpi.img"; str "raspberry-pi"; str "{}"]]
  /\ OsInit.umounts
       (fst (OsInit.action (Exn := jsstring) (Returned (Some tt))
               (Threw (str "sdk")) (fun _ d => Returned d) (Returned tt)
               (Returned tt) (Returned tt) (Returned tt)
               (fun a : option jsstring => a) (fun _ => str "{}") (str "linux")
               (str "rpi.img") (str "raspberry-pi") (Some (str "/dev/sdb"))
               (Some true)))
     = [str "/dev/sdb"; str "/dev/sdb"].
Proof.
  destruct (initialize_with_drive (Exn := jsstring) (Returned (Some tt))
              (Threw (str "sdk")) (fun _ d => Returned d) (Returned tt)
              (Returned tt) (Returned tt) (Returned tt)
              (fun a : option jsstring => a) (fun _ => str "{}") (str "linux")
              (str "rpi.img") (str "raspberry-pi") (Some (str "/dev/sdb"))
              (Some true) tt (Some (str "/dev/sdb")) (str "/dev/sdb")
              (or_introl eq_refl) eq_refl eq_refl eq_refl eq_refl)
    as (Hpriv & _ & Hok).
  split; [exact Hpriv|].
  exact (proj1 (proj2 (Hok eq_refl))).
Defined.

(** What the action does for a drive on a Linux host when everything
    succeeds. *)
Example initialize_trace :
  OsInit.action (Exn := jsstring) (Returned None) (Returned tt)
    (fun _ d => Returned d) (Returned tt) (Returned tt) (Returned tt)
    (Returned tt) (fun a : option jsstring => a) (fun _ => str "{}")
    (str "linux") (str "rpi.img") (str "raspberry-pi")
    (Some (str "/dev/sdb")) (Some true)
  = ([ OsInit.Info (str "Initializing device" ++ OsInit.newline
                    ++ OsInit.newline ++ OsInit.INIT_WARNING_MESSAGE);
       OsInit.GetImageManifest (str "rpi.img");
       OsInit.GetManifestBySlug (str "raspberry-pi");
       OsInit.RunForm (Some (str "/dev/sdb"));
       OsInit.Confirm (Some true)
         (str "This will erase /dev/sdb. Are you sure?")
         (str "Going to erase /dev/sdb.") true;
       OsInit.Umount (str "/dev/sdb");
       OsInit.Log Helpers.admin_message;
       OsInit.ExecuteWithPrivileges
         [str "internal"; str "osinit"; str "rpi.img"; str "raspberry-pi";
          str "{}"] true;
       OsInit.Umount (str "/dev/sdb");
       OsInit.Info (str "You can safely remove /dev/sdb now") ],
     Returned tt).
Proof. reflexivity. Qed.
